(** * Page scoring, page selection and payload construction

    A shallow embedding of [scripts/pdf_processor.py] (the [PageData]
    record), [scripts/config.py] (the extraction configuration),
    [scripts/page_selector.py] and [scripts/payload_builder.py], with the
    properties of the trigger-statement pipeline proved about it. *)

From Stdlib Require Import ZArith NArith Ascii String DecimalString DecimalPos.
From stdpp Require Import base numbers list sorting strings gmap.

Local Open Scope Z_scope.

(** ** Python strings

    A Python [str] is a sequence of Unicode code points. *)

Definition str := list N.

(** String literals of the source are written as UTF-8 text and decoded
    into code points. *)
Fixpoint decode_utf8 (bs : list N) : str :=
  match bs with
  | [] => []
  | b :: bs1 =>
    if (b <? 128)%N then b :: decode_utf8 bs1
    else match bs1 with
    | [] => [b]
    | c1 :: bs2 =>
      if (b <? 224)%N then
        N.lor (N.shiftl (N.land b 31) 6) (N.land c1 63) :: decode_utf8 bs2
      else match bs2 with
      | [] => [b; c1]
      | c2 :: bs3 =>
        if (b <? 240)%N then
          N.lor (N.shiftl (N.land b 15) 12)
            (N.lor (N.shiftl (N.land c1 63) 6) (N.land c2 63)) :: decode_utf8 bs3
        else match bs3 with
        | [] => [b; c1; c2]
        | c3 :: bs4 =>
          N.lor (N.shiftl (N.land b 7) 18)
            (N.lor (N.shiftl (N.land c1 63) 12)
               (N.lor (N.shiftl (N.land c2 63) 6) (N.land c3 63))) :: decode_utf8 bs4
        end
      end
    end
  end.

Definition u (s : string) : str :=
  decode_utf8 (map N_of_ascii (list_ascii_of_string s)).

(** [s.startswith(sub)] *)
Fixpoint startswith (sub s : str) : bool :=
  match sub, s with
  | [], _ => true
  | _ :: _, [] => false
  | a :: sub', b :: s' => (a =? b)%N && startswith sub' s'
  end.

(** The scan behind [str.count] for a non-empty [sub]: walk [s] from left to
    right; [skip] is the number of characters still covered by the last
    occurrence found, so that occurrences never overlap. *)
Fixpoint count_scan (sub s : str) (skip : nat) : nat :=
  match s with
  | [] => 0%nat
  | _ :: s' =>
    match skip with
    | S k => count_scan sub s' k
    | O => if startswith sub s
           then S (count_scan sub s' (pred (length sub)))
           else count_scan sub s' 0%nat
    end
  end.

(** [s.count(sub)]: the number of non-overlapping occurrences of [sub] in
    [s]; Python answers [len(s) + 1] for the empty [sub]. *)
Definition count (s sub : str) : nat :=
  match sub with
  | [] => S (length s)
  | _ :: _ => count_scan sub s 0%nat
  end.

(** [str.isspace] on one code point (CPython's [_PyUnicode_IsWhitespace]). *)
Definition is_whitespace (c : N) : bool :=
  ((9 <=? c) && (c <=? 13) || (28 <=? c) && (c <=? 32)
   || (c =? 133) || (c =? 160) || (c =? 5760)
   || (8192 <=? c) && (c <=? 8202)
   || (c =? 8232) || (c =? 8233) || (c =? 8239) || (c =? 8287)
   || (c =? 12288))%N.

Fixpoint lstrip (s : str) : str :=
  match s with
  | [] => []
  | c :: s' => if is_whitespace c then lstrip s' else s
  end.

Definition rstrip (s : str) : str := reverse (lstrip (reverse s)).

(** [s.strip()] *)
Definition strip (s : str) : str := rstrip (lstrip s).

(** [str(n)] for an [int]. *)
Definition str_of_int (n : Z) : str :=
  map N_of_ascii (list_ascii_of_string (NilZero.string_of_int (Z.to_int n))).

(** [str.lower] restricted to the Basic Latin and Latin-1 blocks, where it
    acts code point by code point: [A]-[Z] and the capital letters
    U+00C0-U+00DE (U+00D7, the multiplication sign, excepted) move up by 32;
    everything else in these blocks is its own lower case.  Code points from
    U+0100 on are left alone here. *)
Definition lower_cp_latin1 (c : N) : N :=
  if ((65 <=? c) && (c <=? 90)
      || (192 <=? c) && (c <=? 222) && negb (c =? 215))%N
  then (c + 32)%N else c.

Definition lower_latin1 (s : str) : str := map lower_cp_latin1 s.

(** ** [scripts/pdf_processor.py]: the page record *)

Record PageData := mkPageData {
  page_num : Z;
  text : str;
  tables : list str;
  relevance_score : Z;
  has_tables : bool
}.

(** [PageData(page_num, text)] with the defaults of the dataclass. *)
Definition PageData_default (n : Z) (t : str) : PageData :=
  mkPageData n t [] 0 false.

(** [page.relevance_score = v] *)
Definition set_relevance_score (v : Z) (p : PageData) : PageData :=
  mkPageData (page_num p) (text p) (tables p) v (has_tables p).

Definition set_text (t : str) (p : PageData) : PageData :=
  mkPageData (page_num p) t (tables p) (relevance_score p) (has_tables p).

Definition set_has_tables (b : bool) (p : PageData) : PageData :=
  mkPageData (page_num p) (text p) (tables p) (relevance_score p) b.

(** ** [scripts/config.py]: the extraction configuration *)

Record Config := mkConfig {
  RELEVANCE_KEYWORDS : list str;
  KEYWORD_SCORE : Z;
  TABLE_BONUS_SCORE : Z;
  TOP_PAGES_TO_SELECT : Z;
  INCLUDE_NEIGHBOR_PAGES : bool
}.

Definition keywords_english : list str :=
  [ u "trigger"; u "activation"; u "threshold"; u "condition"; u "forecast";
    u "probability"; u "lead time"; u "early action"; u "eap"; u "s-eap"; u "seap";
    u "activated"; u "mechanism"; u "stop"; u "deactivate"; u "return period";
    u "model"; u "alert"; u "warning"; u "preliminary" ].

Definition keywords_french : list str :=
  [ u "déclencheur"; u "déclenchement"; u "seuil"; u "condition"; u "prévision";
    u "probabilité"; u "délai"; u "action anticipée"; u "activé"; u "mécanisme";
    u "arrêt"; u "désactiver"; u "période de retour"; u "modèle"; u "alerte";
    u "avertissement" ].

Definition keywords_spanish : list str :=
  [ u "disparador"; u "activación"; u "umbral"; u "condición"; u "pronóstico";
    u "probabilidad"; u "tiempo de anticipación"; u "acción temprana"; u "activado";
    u "mecanismo"; u "parar"; u "desactivar"; u "período de retorno"; u "modelo";
    u "alerta" ].

(** The constants of [config.py]. *)
Definition config_py : Config :=
  {| RELEVANCE_KEYWORDS := keywords_english ++ keywords_french ++ keywords_spanish;
     KEYWORD_SCORE := 1;
     TABLE_BONUS_SCORE := 2;
     TOP_PAGES_TO_SELECT := 3;
     INCLUDE_NEIGHBOR_PAGES := true |}.

(** ** [scripts/page_selector.py] *)

Section Scorer.
(** [str.lower] of the Python runtime, and the module constants read by
    the scorer. *)
Variable lower : str -> str.
Variable cfg : Config.

(** Lines 34-36: the text searched. *)
Definition full_text (page_data : PageData) : str :=
  fold_left (fun acc table => acc ++ (u " " ++ lower table))
            (tables page_data) (lower (text page_data)).

(** Lines 39-41: the loop over the keywords, from the score so far. *)
Definition keyword_loop (corpus : str) (score : Z) : Z :=
  fold_left (fun score keyword =>
               score + Z.of_nat (count corpus (lower keyword)) * KEYWORD_SCORE cfg)
            (RELEVANCE_KEYWORDS cfg) score.

(** [calculate_relevance_score]: the score returned and the page as the
    call leaves it. *)
Definition calculate_relevance_score (page_data : PageData) : Z * PageData :=
  let score := 0 in
  let score := keyword_loop (full_text page_data) score in
  let score := if has_tables page_data then score + TABLE_BONUS_SCORE cfg else score in
  (score, set_relevance_score score page_data).

(** [score_all_pages] *)
Definition score_all_pages (pages_data : list PageData) : list PageData :=
  map (fun p => snd (calculate_relevance_score p)) pages_data.
End Scorer.

(** [list.sort(key=..., reverse=...)] with integer keys.  Python's sort is
    stable, also under [reverse=True]; it is modelled by the insertion sort
    that puts every element in front of the sorted rest of the list and
    moves it right past the elements whose key has to come strictly first. *)
Section ListSort.
Context {A : Type}.
Variable key : A -> Z.
Variable reverse : bool.

Definition key_first (a b : Z) : bool :=
  if reverse then b <? a else a <? b.

Fixpoint sort_insert (x : A) (l : list A) : list A :=
  match l with
  | [] => [x]
  | y :: l' =>
    if key_first (key y) (key x) then y :: sort_insert x l' else x :: y :: l'
  end.

Fixpoint list_sort (l : list A) : list A :=
  match l with
  | [] => []
  | x :: l' => sort_insert x (list_sort l')
  end.
End ListSort.

(** The slice [l[:k]] for an [int] [k]: the first [k] elements, or all but
    the last [-k] when [k] is negative. *)
Definition slice_to {A : Type} (k : Z) (l : list A) : list A :=
  if 0 <=? k then take (Z.to_nat k) l
  else take (length l - Z.to_nat (- k)) l.

Section Selector.
Variable cfg : Config.

(** Line 84 *)
Definition scored_pages (pages_data : list PageData) : list PageData :=
  filter (fun p => 0 < relevance_score p) pages_data.

(** Lines 91-94: the ranking by score and its first [TOP_PAGES_TO_SELECT]
    pages. *)
Definition ranked_pages (pages_data : list PageData) : list PageData :=
  list_sort relevance_score true (scored_pages pages_data).

Definition top_pages (pages_data : list PageData) : list PageData :=
  slice_to (TOP_PAGES_TO_SELECT cfg) (ranked_pages pages_data).

(** Lines 101-109: one turn of the loop over the top pages. *)
Definition add_page (total_pages : Z) (selected : gset Z) (page : PageData)
  : gset Z :=
  let selected := selected ∪ {[ page_num page ]} in
  if INCLUDE_NEIGHBOR_PAGES cfg then
    let selected :=
      if 1 <? page_num page then selected ∪ {[ page_num page - 1 ]}
      else selected in
    if page_num page <? total_pages then selected ∪ {[ page_num page + 1 ]}
    else selected
  else selected.

(** Lines 97-109 *)
Definition selected_page_nums (pages_data : list PageData) : gset Z :=
  let total_pages := Z.of_nat (length pages_data) in
  fold_left (add_page total_pages) (top_pages pages_data) ∅.

(** [select_relevant_pages] *)
Definition select_relevant_pages (pages_data : list PageData)
  : list PageData :=
  match scored_pages pages_data with
  | [] => []
  | _ :: _ =>
    let nums := selected_page_nums pages_data in
    let selected_pages :=
      filter (fun p => page_num p ∈ nums) pages_data in
    list_sort page_num false selected_pages
  end.
End Selector.

(** ** [scripts/payload_builder.py] *)

(** The line feed of the literals of the source. *)
Definition nl : str := [10%N].

(** The f-string of line 32: the page header. *)
Definition page_header (n : Z) : str :=
  nl ++ u "--- PAGE " ++ str_of_int n ++ u " ---" ++ nl.

Definition tables_marker : str := nl ++ u "[TABLES]" ++ nl.
Definition text_marker : str := nl ++ u "[TEXT]" ++ nl.

(** Lines 37-39: the loop over the tables of a page. *)
Definition append_tables (payload_parts : list str) (tbls : list str)
  : list str :=
  fold_left (fun parts table => (parts ++ [table]) ++ [nl]) tbls payload_parts.

(** Lines 30-45: one turn of the loop over the pages. *)
Definition append_page (payload_parts : list str) (page : PageData)
  : list str :=
  let parts := payload_parts ++ [page_header (page_num page)] in
  let parts :=
    match tables page with
    | [] => parts
    | _ :: _ => append_tables (parts ++ [tables_marker]) (tables page)
    end in
  match strip (text page) with
  | [] => parts
  | _ :: _ => ((parts ++ [text_marker]) ++ [strip (text page)]) ++ [nl]
  end.

(** [construct_payload] *)
Definition construct_payload (selected_pages : list PageData) : str :=
  match selected_pages with
  | [] => []
  | _ :: _ =>
    let payload_parts := fold_left append_page selected_pages [] in
    concat payload_parts
  end.

(** ** Objects and references

    The pages and the lists of the pipeline are Python objects, shared by
    reference: a list holds references to its pages, and
    [select_relevant_pages] returns a new list that refers to pages of the
    list it was given.  A heap maps locations to objects; a computation
    takes a heap and either raises ([None]) or returns a value and the
    heap it leaves. *)

Definition loc := positive.

Inductive object :=
| PageObj (p : PageData)
| ListObj (items : list loc).

Definition Py (A : Type) : Type := gmap loc object -> option (A * gmap loc object).

#[global] Instance Py_ret : MRet Py := fun A a h => Some (a, h).

#[global] Instance Py_bind : MBind Py := fun A B f m h =>
  match m h with
  | Some (a, h') => f a h'
  | None => None
  end.

(** A new object. *)
Definition alloc (o : object) : Py loc := fun h =>
  let l := fresh (dom h) in Some (l, <[l := o]> h).

Definition load_page (l : loc) : Py PageData := fun h =>
  match h !! l with
  | Some (PageObj p) => Some (p, h)
  | _ => None
  end.

Definition load_list (l : loc) : Py (list loc) := fun h =>
  match h !! l with
  | Some (ListObj items) => Some (items, h)
  | _ => None
  end.

(** An object updated in place. *)
Definition store (l : loc) (o : object) : Py unit := fun h =>
  Some (tt, <[l := o]> h).

(** The location [r] holds the page [p]. *)
Definition holds_page (h : gmap loc object) (r : loc) (p : PageData) : Prop :=
  h !! r = Some (PageObj p).

(** [calculate_relevance_score] on a page object: the one place where the
    pipeline writes to a page. *)
Definition calculate_relevance_score_obj (lower : str -> str) (cfg : Config)
    (page_data : loc) : Py Z :=
  p ← load_page page_data;
  let '(score, p') := calculate_relevance_score lower cfg p in
  store page_data (PageObj p');;
  mret score.

(** The list comprehension [[p for p in items if cond(p)]]. *)
Fixpoint filter_pages (cond : PageData -> bool) (items : list loc)
  : Py (list loc) :=
  match items with
  | [] => mret []
  | r :: items' =>
    p ← load_page r;
    rest ← filter_pages cond items';
    mret (if cond p then r :: rest else rest)
  end.

(** The keys [key(p)] that [list.sort] computes before it sorts. *)
Fixpoint sort_keys (key : PageData -> Z) (items : list loc)
  : Py (list (Z * loc)) :=
  match items with
  | [] => mret []
  | r :: items' =>
    p ← load_page r;
    rest ← sort_keys key items';
    mret ((key p, r) :: rest)
  end.

(** [l.sort(key=key, reverse=reverse)]: the list object is reordered in
    place. *)
Definition sort_in_place (key : PageData -> Z) (reverse : bool) (l : loc)
  : Py unit :=
  items ← load_list l;
  keyed ← sort_keys key items;
  store l (ListObj (map snd (list_sort fst reverse keyed))).

(** Lines 100-109: the loop over the top pages. *)
Fixpoint add_pages (cfg : Config) (total_pages : Z) (tops : list loc)
    (selected : gset Z) : Py (gset Z) :=
  match tops with
  | [] => mret selected
  | r :: tops' =>
    page ← load_page r;
    add_pages cfg total_pages tops' (add_page cfg total_pages selected page)
  end.

(** [select_relevant_pages] on objects: [pages_data] is the list passed in,
    the result is the list returned. *)
Definition select_relevant_pages_obj (cfg : Config) (pages_data : loc)
  : Py loc :=
  items ← load_list pages_data;
  scored ← filter_pages (fun p => bool_decide (0 < relevance_score p)) items;
  scored_pages ← alloc (ListObj scored);
  match scored with
  | [] => alloc (ListObj [])
  | _ :: _ =>
    sort_in_place relevance_score true scored_pages;;
    ranked ← load_list scored_pages;
    top_pages ← alloc (ListObj (slice_to (TOP_PAGES_TO_SELECT cfg) ranked));
    let total_pages := Z.of_nat (length items) in
    tops ← load_list top_pages;
    selected_page_nums ← add_pages cfg total_pages tops ∅;
    selected ← filter_pages
                 (fun p => bool_decide (page_num p ∈ selected_page_nums)) items;
    selected_pages ← alloc (ListObj selected);
    sort_in_place page_num false selected_pages;;
    mret selected_pages
  end.

(** ** The behaviour described for the components *)

Definition Zsum (l : list Z) : Z := foldr Z.add 0 l.

(** The search corpus: the lowercased text, then a space and each lowercased
    table, in table order. *)
Definition corpus (lower : str -> str) (p : PageData) : str :=
  lower (text p) ++ concat (map (fun t => u " " ++ lower t) (tables p)).

(** [sub] occurs in [s] at offset [i]. *)
Definition occurs_at (sub s : str) (i : nat) : Prop :=
  exists r, drop i s = sub ++ r.

(** [occurrences sub s n]: scanning [s] from the left and resuming after
    the end of each occurrence found, [sub] is met [n] times. *)
Inductive occurrences (sub : str) : str -> nat -> Prop :=
| occurrences_none s :
    (forall i, ~ occurs_at sub s i) -> occurrences sub s 0
| occurrences_next a r n :
    (forall i, occurs_at sub (a ++ sub ++ r) i -> (length a <= i)%nat) ->
    occurrences sub r n ->
    occurrences sub (a ++ sub ++ r) (S n).

(** The score described for a page. *)
Definition described_score (lower : str -> str) (cfg : Config) (p : PageData)
  : Z :=
  Zsum (map (fun k => Z.of_nat (count (corpus lower p) (lower k)) * KEYWORD_SCORE cfg)
            (RELEVANCE_KEYWORDS cfg))
  + (if has_tables p then TABLE_BONUS_SCORE cfg else 0).

(** The tables section of a page of the payload. *)
Definition tables_section (p : PageData) : str :=
  match tables p with
  | [] => []
  | _ :: _ => tables_marker ++ concat (map (fun t => t ++ nl) (tables p))
  end.

(** The text section, as the description of the payload words it: the
    marker and the trimmed text. *)
Definition described_text_section (p : PageData) : str :=
  match strip (text p) with
  | [] => []
  | _ :: _ => text_marker ++ strip (text p)
  end.

Definition described_payload (pages : list PageData) : str :=
  concat (map (fun p => page_header (page_num p) ++ tables_section p
                        ++ described_text_section p) pages).

(** The text section with the line feed that closes it. *)
Definition text_section (p : PageData) : str :=
  match strip (text p) with
  | [] => []
  | _ :: _ => text_marker ++ strip (text p) ++ nl
  end.

Definition page_block (p : PageData) : str :=
  page_header (page_num p) ++ tables_section p ++ text_section p.

(** The two pages of the round-trip example. *)
Definition table_AB : str :=
  u "| A | B |" ++ nl ++ u "| --- | --- |" ++ nl ++ u "| 1 | 2 |".

Definition page2_flood : PageData :=
  mkPageData 2 (u "Flood threshold 40%") [] 0 false.

Definition page3_table : PageData :=
  mkPageData 3 [] [table_AB] 0 true.

(** What a stable sort by [key] makes of an order [R] the list had before:
    the key decides, and equal keys keep the order [R]. *)
Definition sorted_stably {A : Type} (key : A -> Z) (reverse : bool)
    (R : relation A) (a b : A) : Prop :=
  key_first reverse (key a) (key b) = true \/ (key a = key b /\ R a b).

(** Pages in reading order. *)
Definition page_num_lt (p q : PageData) : Prop := page_num p < page_num q.

(** The order of the ranking: higher score first, and among equal scores
    the lower page number first. *)
Definition ranks_before (p q : PageData) : Prop :=
  relevance_score q < relevance_score p
  \/ (relevance_score p = relevance_score q /\ page_num p < page_num q).

(** ** [scripts/pdf_processor.py]: extraction

    PyMuPDF is outside the repository: what it hands over is taken as the
    input.  A table's [extract()] gives rows of cells, a cell being a string
    or [None]; [None] for the whole value stands for an [extract()] that
    raised or returned nothing. *)

(** [sep.join(parts)] *)
Fixpoint join (sep : str) (parts : list str) : str :=
  match parts with
  | [] => []
  | p :: rest =>
    match rest with
    | [] => p
    | _ :: _ => p ++ sep ++ join sep rest
    end
  end.

(** [str(cell).strip() if cell else ""] *)
Definition cell_text (cell : option str) : str :=
  match cell with
  | Some ((_ :: _) as s) => strip s
  | _ => []
  end.

(** ["| " + " | ".join(cells) + " |"] *)
Definition markdown_row (cells : list str) : str :=
  u "| " ++ join (u " | ") cells ++ u " |".

(** Lines 51-52: [while len(cells) < len(header): cells.append("")], run
    for at most [fuel] turns. *)
Fixpoint pad_cells (fuel width : nat) (cells : list str) : list str :=
  if (length cells <? width)%nat then
    match fuel with
    | S fuel' => pad_cells fuel' width (cells ++ [[]])
    | O => cells
    end
  else cells.

(** Lines 50-53: the line of one data row. *)
Definition data_row_line (width : nat) (row : list (option str)) : str :=
  let cells := map cell_text row in
  let cells := pad_cells width width cells in
  markdown_row (take width cells).

(** [table_to_markdown] *)
Definition table_to_markdown (extracted : option (list (list (option str))))
  : str :=
  match extracted with
  | None => []
  | Some [] => []
  | Some (header :: rows) =>
    let header_cells := map cell_text header in
    let lines := [markdown_row header_cells] in
    let lines := lines ++ [markdown_row (replicate (length header) (u "---"))] in
    let lines :=
      fold_left (fun lines row => lines ++ [data_row_line (length header) row])
                rows lines in
    join nl lines
  end.

(** What a page hands over: the text of [get_text()] and the tables of
    [find_tables()], [None] when [find_tables()] raises. *)
Definition raw_page : Type :=
  str * option (list (option (list (list (option str))))).

(** Lines 75-83: the tables kept for a page. *)
Definition page_tables (found : option (list (option (list (list (option str))))))
  : list str :=
  match found with
  | None => []
  | Some tbls =>
    fold_left (fun tables table =>
                 match table_to_markdown table with
                 | [] => tables
                 | (_ :: _) as markdown_table => tables ++ [markdown_table]
                 end) tbls []
  end.

(** [extract_page_content] *)
Definition extract_page_content (page : raw_page) (n : Z) : PageData :=
  let text := fst page in
  let tables := page_tables (snd page) in
  mkPageData n text tables 0 (0 <? length tables)%nat.

(** Lines 109-112: the loop over the pages; a page that is [None] stands
    for an exception raised while it is read, which ends the loop. *)
Fixpoint process_pages (page_num : Z) (pages : list (option raw_page))
    (pages_data : list PageData) : list PageData :=
  match pages with
  | [] => pages_data
  | None :: _ => pages_data
  | Some page :: rest =>
    let page_data := extract_page_content page (page_num + 1) in
    process_pages (page_num + 1) rest (pages_data ++ [page_data])
  end.

(** [process_pdf]: [doc] is what [pymupdf.open] gives, [None] when it
    raises. *)
Definition process_pdf (doc : option (list (option raw_page))) : list PageData :=
  match doc with
  | None => []
  | Some pages => process_pages 0 pages []
  end.

(** ** [scripts/main.py] *)

(** The value of a results dictionary. *)
Inductive value :=
| VNone
| VInt (n : Z)
| VStr (s : str)
| VEmptyDict.

Definition value_of_option {A : Type} (f : A -> value) (o : option A) : value :=
  match o with
  | Some a => f a
  | None => VNone
  end.

Section Main.
(** The decimal digits of Unicode beyond ASCII ([\d] of [re] and [int]
    accept them), [str.lower], and the module constants. *)
Variable unicode_decimal : N -> option Z.
Variable lower : str -> str.
Variable cfg : Config.

(** The digit value of a code point, if it is a decimal digit. *)
Definition decimal (c : N) : option Z :=
  if ((48 <=? c) && (c <=? 57))%N then Some (Z.of_N c - 48)
  else if (c <? 128)%N then None
  else unicode_decimal c.

(** The run of digits that [\d+] takes at the head of a string, and what
    follows it. *)
Fixpoint leading_digits (s : str) : list Z * str :=
  match s with
  | [] => ([], [])
  | c :: s' =>
    match decimal c with
    | Some d => let '(ds, rest) := leading_digits s' in (d :: ds, rest)
    | None => ([], s)
    end
  end.

(** [int] of a run of digits. *)
Definition int_of_digits (ds : list Z) : Z :=
  fold_left (fun acc d => acc * 10 + d) ds 0.

(** [extract_document_id]: [re.match(r'^(\d+)_', filename)] and [int] of
    the digits matched.  (The limit [int] puts on the length of a numeral,
    4300 digits by default, is beyond the length of a file name.) *)
Definition extract_document_id (filename : str) : option Z :=
  match leading_digits filename with
  | ((_ :: _) as ds, c :: _) =>
    if (c =? 95)%N then Some (int_of_digits ds) else None
  | _ => None
  end.

(** [prepare_pdf_payload]: the payload, or [None], and the result
    dictionary. *)
Definition prepare_pdf_payload (name : str)
    (doc : option (list (option raw_page)))
    (document_metadata : option (gmap Z str))
  : option str * gmap string value :=
  let doc_id := extract_document_id name in
  let doc_name :=
    match document_metadata, doc_id with
    | Some metadata, Some n =>
      if bool_decide (metadata <> ∅) && negb (n =? 0) then metadata !! n
      else None
    | _, _ => None
    end in
  let result : gmap string value :=
    <["file" := VStr name]>
    (<["document_id" := value_of_option VInt doc_id]>
    (<["document_name" := value_of_option VStr doc_name]>
    (<["document_language" := VNone]>
    (<["status" := VStr (u "success")]>
    (<["pages_analyzed" := VInt 0]>
    (<["pages_selected" := VInt 0]>
    (<["trigger_mechanism" := VNone]>
    (<["triggers" := VEmptyDict]> ∅)))))))) in
  let pages_data := process_pdf doc in
  match pages_data with
  | [] =>
    let result := <["status" := VStr (u "error")]> result in
    let result :=
      <["error" := VStr (u "Failed to extract pages from PDF")]> result in
    (None, result)
  | _ :: _ =>
    let result :=
      <["pages_analyzed" := VInt (Z.of_nat (length pages_data))]> result in
    let pages_data := score_all_pages lower cfg pages_data in
    let selected_pages := select_relevant_pages cfg pages_data in
    match selected_pages with
    | [] =>
      let result := <["status" := VStr (u "no_matches")]> result in
      let result :=
        <["error" := VStr (u "No pages matched the relevance criteria")]> result in
      (None, result)
    | _ :: _ =>
      let result :=
        <["pages_selected" := VInt (Z.of_nat (length selected_pages))]> result in
      let payload := construct_payload selected_pages in
      match payload with
      | [] =>
        let result := <["status" := VStr (u "error")]> result in
        let result :=
          <["error" := VStr (u "Failed to construct payload")]> result in
        (None, result)
      | _ :: _ => (Some payload, result)
      end
    end
  end.
End Main.

(** [score_all_pages] on objects: every page of the list is scored in
    place and the list passed in is returned. *)
Fixpoint score_each (lower : str -> str) (cfg : Config) (items : list loc)
  : Py unit :=
  match items with
  | [] => mret tt
  | page_data :: items' =>
    calculate_relevance_score_obj lower cfg page_data;;
    score_each lower cfg items'
  end.

Definition score_all_pages_obj (lower : str -> str) (cfg : Config)
    (pages_data : loc) : Py loc :=
  items ← load_list pages_data;
  score_each lower cfg items;;
  mret pages_data.

(** The digits of a decimal numeral, most significant first. *)
Fixpoint uint_digits (d : Decimal.uint) : list Z :=
  match d with
  | Decimal.Nil => []
  | Decimal.D0 d => 0 :: uint_digits d
  | Decimal.D1 d => 1 :: uint_digits d
  | Decimal.D2 d => 2 :: uint_digits d
  | Decimal.D3 d => 3 :: uint_digits d
  | Decimal.D4 d => 4 :: uint_digits d
  | Decimal.D5 d => 5 :: uint_digits d
  | Decimal.D6 d => 6 :: uint_digits d
  | Decimal.D7 d => 7 :: uint_digits d
  | Decimal.D8 d => 8 :: uint_digits d
  | Decimal.D9 d => 9 :: uint_digits d
  end.

(** [s.endswith(suffix)] *)
Definition endswith (s suffix : str) : bool :=
  startswith (reverse suffix) (reverse s).

(** ** [scripts/fetch_appeal_documents.py] *)

(** Lines 174-184 of [download_documents]: the name a document is saved
    under.  [original_filename] is the base name of the path of the URL;
    [isalnum] is [str.isalnum] on one character. *)
Definition safe_filename (lower : str -> str) (isalnum : N -> bool)
    (doc_id : Z) (original_filename doc_name : str) : str :=
  let safe_filename :=
    match original_filename with
    | _ :: _ => str_of_int doc_id ++ u "_" ++ original_filename
    | [] =>
      let safe_name :=
        map (fun c => if isalnum c || bool_decide (c ∈ u "._- ") then c else 95%N)
            doc_name in
      str_of_int doc_id ++ u "_" ++ safe_name
    end in
  if negb (endswith (lower safe_filename) (u ".pdf"))
  then safe_filename ++ u ".pdf"
  else safe_filename.

(** How a run of [fetch_all_appeal_documents] ends: with the documents, with
    an exception, or not within the turns allowed. *)
Inductive fetched (D : Type) :=
| Fetched (documents : list D)
| FetchRaised
| FetchRunning.
Arguments Fetched {D} documents.
Arguments FetchRaised {D}.
Arguments FetchRunning {D}.

(** Lines 57-78: the loop over the pages of the API, for at most [fuel]
    requests.  [api offset] is the answer to the request at [offset] with
    [limit=50]: the [results] and the [count] of the JSON body, or [None]
    when the request raises. *)
Fixpoint fetch_pages {D : Type} (fuel : nat) (api : Z -> option (list D * Z))
    (offset : Z) (all_documents : list D) : fetched D :=
  match fuel with
  | O => FetchRunning
  | S fuel' =>
    match api offset with
    | None => FetchRaised
    | Some (results, total_count) =>
      match results with
      | [] => Fetched all_documents
      | _ :: _ =>
        let all_documents := all_documents ++ results in
        if offset + 50 >=? total_count then Fetched all_documents
        else fetch_pages fuel' api (offset + 50) all_documents
      end
    end
  end.

(** [fetch_all_appeal_documents] *)
Definition fetch_all_appeal_documents {D : Type} (api_token : option str)
    (fuel : nat) (api : Z -> option (list D * Z)) : fetched D :=
  match api_token with
  | None | Some [] => FetchRaised
  | Some (_ :: _) => fetch_pages fuel api 0 []
  end.

(** An API that serves the documents [docs] by limit and offset. *)
Definition paged_api {D : Type} (docs : list D) (offset : Z)
  : option (list D * Z) :=
  Some (take 50 (drop (Z.to_nat offset) docs), Z.of_nat (length docs)).

(** ** [scripts/llm_extractor.py] *)

(** Lines 182-192 of [extract_triggers_with_llm]: the text of the response
    as it is handed to [json.loads]. *)
Definition clean_response (response_text : str) : str :=
  let response_text := strip response_text in
  let response_text :=
    if startswith (u "```json") response_text then drop 7 response_text
    else response_text in
  let response_text :=
    if startswith (u "```") response_text then drop 3 response_text
    else response_text in
  let response_text :=
    if endswith response_text (u "```")
    then take (length response_text - 3) response_text
    else response_text in
  strip response_text.

(** ** [scripts/json_to_excel.py] *)

(** [chr(n)]: the character of a code point, a [ValueError] outside the
    range of Unicode. *)
Definition chr (n : Z) : option str :=
  if (0 <=? n) && (n <? 1114112) then Some [Z.to_N n] else None.

(** Line 158 of [export_to_excel]: the letter of the column with index
    [idx]. *)
Definition col_letter (idx : Z) : option str :=
  if idx <? 26 then chr (65 + idx)
  else
    match chr (64 + idx / 26), chr (65 + idx mod 26) with
    | Some a, Some b => Some (a ++ b)
    | _, _ => None
    end.

(** ** [str.lower]

    CPython lowers a string character by character ([do_lower] and
    [lower_ucs4] in [Objects/unicodeobject.c]): a character gives the
    characters of its full lower case in the Unicode database, one to three
    of them, except the capital sigma U+03A3, which gives the final small
    sigma U+03C2 at the end of a word and the small sigma U+03C3
    elsewhere. *)

Section StrLower.
(** The Unicode database: [_PyUnicode_ToLowerFull], [_PyUnicode_IsCased]
    and [_PyUnicode_IsCaseIgnorable]. *)
Variable to_lower_full : N -> str.
Variable is_cased : N -> bool.
Variable is_case_ignorable : N -> bool.

(** The first character of [s] that is not case-ignorable. *)
Fixpoint skip_case_ignorable (s : str) : option N :=
  match s with
  | [] => None
  | c :: s' => if is_case_ignorable c then skip_case_ignorable s' else Some c
  end.

(** [handle_capital_sigma]: [before] holds the characters in front of the
    sigma, the nearest first, and [after] those behind it.  The sigma is
    final when a cased character comes before it and none comes after it,
    case-ignorable characters skipped. *)
Definition handle_capital_sigma (before after : str) : N :=
  let final_sigma :=
    match skip_case_ignorable before with
    | Some c => is_cased c
    | None => false
    end in
  let final_sigma :=
    if final_sigma then
      match skip_case_ignorable after with
      | Some c => negb (is_cased c)
      | None => true
      end
    else false in
  if final_sigma then 962%N else 963%N.

(** [lower_ucs4] *)
Definition lower_ucs4 (before after : str) (c : N) : str :=
  if (c =? 931)%N then [handle_capital_sigma before after]
  else to_lower_full c.

(** [do_lower], from a position with [before] in front of it. *)
Fixpoint do_lower (before s : str) : str :=
  match s with
  | [] => []
  | c :: after => lower_ucs4 before after c ++ do_lower (c :: before) after
  end.

(** [s.lower()] *)
Definition str_lower (s : str) : str := do_lower [] s.
End StrLower.

(** An excerpt of the Unicode database, for the examples: Basic Latin,
    Latin-1 and the Greek capital and small letters. *)
Definition to_lower_full_excerpt (c : N) : str :=
  if ((913 <=? c) && (c <=? 939) && negb (c =? 930))%N then [(c + 32)%N]
  else [lower_cp_latin1 c].

Definition is_cased_excerpt (c : N) : bool :=
  ((65 <=? c) && (c <=? 90) || (97 <=? c) && (c <=? 122)
   || (c =? 170) || (c =? 181) || (c =? 186)
   || (192 <=? c) && (c <=? 255) && negb (c =? 215) && negb (c =? 247)
   || (913 <=? c) && (c <=? 939) && negb (c =? 930)
   || (940 <=? c) && (c <=? 974))%N.

Definition is_case_ignorable_excerpt (c : N) : bool :=
  bool_decide (c ∈ [39; 46; 58; 94; 96; 168; 173; 175; 180; 183; 184]%N).

Definition lower_excerpt : str -> str :=
  str_lower to_lower_full_excerpt is_cased_excerpt is_case_ignorable_excerpt.

(** The two small sigmas. *)
Definition small_sigma (c : N) : bool := ((c =? 962) || (c =? 963))%N.

(** A string without a small sigma. *)
Definition sigma_free (s : str) : bool :=
  forallb (fun c => negb (small_sigma c)) s.

(** Strings that are equal but for which small sigma they have where they
    have one. *)
Definition same_up_to_sigma (s t : str) : Prop :=
  Forall2 (fun a b => a = b \/ (small_sigma a = true /\ small_sigma b = true)) s t.

(** A keyword list with a capital sigma in a keyword. *)
Definition config_sigma : Config :=
  {| RELEVANCE_KEYWORDS := [u "ΑΣ"];
     KEYWORD_SCORE := 1;
     TABLE_BONUS_SCORE := 2;
     TOP_PAGES_TO_SELECT := 3;
     INCLUDE_NEIGHBOR_PAGES := true |}.

(** * Properties *)

(** ** Strings *)

Lemma startswith_spec (sub s : str) :
  startswith sub s = true <-> exists r, s = sub ++ r.
Proof.
  revert s. induction sub as [|a sub IH]; intros s; simpl.
  - split; [intros _; by exists s | done].
  - destruct s as [|b s].
    + split; [done | intros [r Hr]; discriminate].
    + rewrite andb_true_iff, N.eqb_eq, IH. split.
      * intros [-> [r ->]]. by exists r.
      * intros [r Hr]. injection Hr as -> ->. eauto.
Qed.

Lemma occurs_at_startswith (sub s : str) (i : nat) :
  occurs_at sub s i <-> startswith sub (drop i s) = true.
Proof. unfold occurs_at. by rewrite startswith_spec. Qed.

Lemma count_scan_skip (sub s : str) (k : nat) :
  count_scan sub s k = count_scan sub (drop k s) 0.
Proof.
  revert k. induction s as [|c s IH]; intros [|k]; simpl; done.
Qed.

Lemma count_scan_hit (sub s r : str) :
  sub <> [] -> s = sub ++ r ->
  count_scan sub s 0 = S (count_scan sub r 0).
Proof.
  intros Hsub ->. destruct sub as [|a sub]; [done|]. simpl.
  rewrite N.eqb_refl. simpl.
  assert (startswith sub (sub ++ r) = true) as ->
    by (apply startswith_spec; eauto).
  rewrite count_scan_skip. by rewrite drop_app_length.
Qed.

Lemma count_scan_miss (sub : str) (c : N) (s : str) :
  startswith sub (c :: s) = false ->
  count_scan sub (c :: s) 0 = count_scan sub s 0.
Proof. intros H. simpl count_scan. by rewrite H. Qed.

Lemma count_scan_occurrences (sub : str) :
  sub <> [] ->
  forall (n : nat) (s a : str),
    (length s <= n)%nat ->
    (forall i, occurs_at sub (a ++ s) i -> (length a <= i)%nat) ->
    occurrences sub (a ++ s) (count_scan sub s 0).
Proof.
  intros Hsub. induction n as [|n IH]; intros s a Hlen Hleft.
  - destruct s; [|simpl in Hlen; lia]. simpl. apply occurrences_none.
    intros i Hi. pose proof (Hleft i Hi) as Hge.
    destruct Hi as [r Hr]. rewrite drop_ge in Hr
      by (rewrite length_app; simpl; lia).
    destruct sub; [done | discriminate].
  - destruct s as [|c s].
    { simpl. apply occurrences_none.
      intros i Hi. pose proof (Hleft i Hi) as Hge.
      destruct Hi as [r Hr]. rewrite drop_ge in Hr
        by (rewrite length_app; simpl; lia).
      destruct sub; [done | discriminate]. }
    destruct (startswith sub (c :: s)) eqn:Hsw.
    + apply startswith_spec in Hsw as [r Hr].
      rewrite (count_scan_hit sub (c :: s) r Hsub Hr), Hr.
      apply occurrences_next.
      * by rewrite <- Hr.
      * apply (IH r []).
        -- assert (length (c :: s) = length (sub ++ r)) as Hl by (by rewrite Hr).
           rewrite length_app in Hl. simpl in Hl, Hlen.
           destruct sub; [done | simpl in Hl; lia].
        -- intros; simpl; lia.
    + rewrite (count_scan_miss _ _ _ Hsw).
      replace (a ++ c :: s) with ((a ++ [c]) ++ s) by (by rewrite <- app_assoc).
      apply IH.
      * simpl in Hlen. lia.
      * intros i Hi. rewrite <- app_assoc in Hi. simpl in Hi.
        pose proof (Hleft i Hi) as Hge. rewrite length_app. simpl.
        destruct (decide (i = length a)) as [->|]; [|lia].
        apply occurs_at_startswith in Hi.
        rewrite drop_app_length in Hi. congruence.
Qed.

(** [str.count] counts the occurrences met by the left-to-right scan. *)
Lemma count_occurrences (s sub : str) :
  sub <> [] -> occurrences sub s (count s sub).
Proof.
  intros Hsub. destruct sub as [|a sub]; [done|].
  unfold count.
  apply (count_scan_occurrences (a :: sub) Hsub (length s) s []);
    [done | intros; simpl; lia].
Qed.

(** ** The scorer *)

Lemma fold_left_app_acc {A : Type} (g : A -> str) (l : list A) (acc : str) :
  fold_left (fun acc x => acc ++ g x) l acc = acc ++ concat (map g l).
Proof.
  revert acc. induction l as [|x l IH]; intros acc; simpl.
  - by rewrite app_nil_r.
  - by rewrite IH, <- app_assoc.
Qed.

Lemma full_text_corpus (lower : str -> str) (p : PageData) :
  full_text lower p = corpus lower p.
Proof. unfold full_text, corpus. apply fold_left_app_acc. Qed.

Lemma fold_left_Zsum {A : Type} (g : A -> Z) (l : list A) (acc : Z) :
  fold_left (fun acc x => acc + g x) l acc = acc + Zsum (map g l).
Proof.
  revert acc. induction l as [|x l IH]; intros acc; simpl.
  - lia.
  - rewrite IH. lia.
Qed.

Lemma Zsum_nonneg (l : list Z) : Forall (fun z => 0 <= z) l -> 0 <= Zsum l.
Proof. induction 1; simpl; lia. Qed.

Lemma Zsum_app (l1 l2 : list Z) : Zsum (l1 ++ l2) = Zsum l1 + Zsum l2.
Proof. induction l1; simpl; lia. Qed.

Lemma score_described (lower : str -> str) (cfg : Config) (p : PageData) :
  fst (calculate_relevance_score lower cfg p) = described_score lower cfg p.
Proof.
  unfold calculate_relevance_score, described_score, keyword_loop. simpl.
  rewrite full_text_corpus, fold_left_Zsum.
  destruct (has_tables p); lia.
Qed.

Lemma described_score_nonneg (lower : str -> str) (cfg : Config) (p : PageData) :
  0 <= KEYWORD_SCORE cfg -> 0 <= TABLE_BONUS_SCORE cfg ->
  0 <= described_score lower cfg p.
Proof.
  intros Hk Hb. unfold described_score.
  assert (0 <= Zsum (map (fun k => Z.of_nat (count (corpus lower p) (lower k))
                                   * KEYWORD_SCORE cfg) (RELEVANCE_KEYWORDS cfg))).
  { apply Zsum_nonneg, Forall_map, Forall_forall. intros k _. simpl. nia. }
  destruct (has_tables p); lia.
Qed.

Lemma calculate_relevance_score_obj_run
    (lower : str -> str) (cfg : Config) (h : gmap loc object) (r : loc)
    (p : PageData) :
  holds_page h r p ->
  calculate_relevance_score_obj lower cfg r h
  = Some (fst (calculate_relevance_score lower cfg p),
          <[r := PageObj (snd (calculate_relevance_score lower cfg p))]> h).
Proof.
  intros Hp. unfold calculate_relevance_score_obj, mbind, Py_bind, load_page.
  by rewrite Hp.
Qed.

(** C1. [calculate_relevance_score] returns the described score: the sum
    over the configured keywords of the number of occurrences of the
    lowercased keyword in the corpus (counted by the non-overlapping
    left-to-right scan) times [KEYWORD_SCORE], plus [TABLE_BONUS_SCORE] once
    when [has_tables] is set.  The same value is written into
    [relevance_score] of the page: after the call the field
    [relevance_score] of the page holds the score returned, whatever it held
    before, and the other fields are those of before.  On objects the page
    object passed in is the one written to, and no other object changes.
    With non-negative weights the score is not negative. *)
Theorem calculate_relevance_score_spec
    (lower : str -> str) (cfg : Config) (p : PageData) :
  let score :=
    Zsum (map (fun k => Z.of_nat (count (corpus lower p) (lower k)) * KEYWORD_SCORE cfg)
              (RELEVANCE_KEYWORDS cfg))
    + (if has_tables p then TABLE_BONUS_SCORE cfg else 0) in
  calculate_relevance_score lower cfg p = (score, set_relevance_score score p)
  /\ (forall (h : gmap loc object) (r : loc), holds_page h r p ->
        calculate_relevance_score_obj lower cfg r h
        = Some (score, <[r := PageObj (set_relevance_score score p)]> h))
  /\ corpus lower p
     = lower (text p) ++ concat (map (fun t => u " " ++ lower t) (tables p))
  /\ (forall k, k ∈ RELEVANCE_KEYWORDS cfg -> lower k <> [] ->
        occurrences (lower k) (corpus lower p) (count (corpus lower p) (lower k)))
  /\ (0 <= KEYWORD_SCORE cfg -> 0 <= TABLE_BONUS_SCORE cfg -> 0 <= score)
  /\ fst (calculate_relevance_score lower cfg p) = score
  /\ relevance_score (snd (calculate_relevance_score lower cfg p)) = score
  /\ page_num (snd (calculate_relevance_score lower cfg p)) = page_num p
  /\ text (snd (calculate_relevance_score lower cfg p)) = text p
  /\ tables (snd (calculate_relevance_score lower cfg p)) = tables p
  /\ has_tables (snd (calculate_relevance_score lower cfg p)) = has_tables p
  /\ (forall (h : gmap loc object) (r : loc), h !! r = Some (PageObj p) ->
        exists (h' : gmap loc object) (p' : PageData),
          calculate_relevance_score_obj lower cfg r h = Some (score, h')
          /\ h' !! r = Some (PageObj p')
          /\ relevance_score p' = score
          /\ page_num p' = page_num p /\ text p' = text p
          /\ tables p' = tables p /\ has_tables p' = has_tables p
          /\ (forall l, l <> r -> h' !! l = h !! l)).
Proof.
  intros score.
  assert (calculate_relevance_score lower cfg p
          = (score, set_relevance_score score p)) as Hcalc.
  { pose proof (score_described lower cfg p) as H.
    unfold calculate_relevance_score in *. simpl in *. by rewrite H. }
  split; [exact Hcalc|]. split; [|split; [done|split; [|split]]].
  - intros h r Hp.
    by rewrite (calculate_relevance_score_obj_run lower cfg h r p Hp), Hcalc.
  - intros k _ Hne. by apply count_occurrences.
  - intros Hk Hb. by apply described_score_nonneg.
  - rewrite Hcalc. repeat (split; [done|]).
    intros h r Hp.
    exists (<[r := PageObj (set_relevance_score score p)]> h),
           (set_relevance_score score p).
    rewrite (calculate_relevance_score_obj_run lower cfg h r p Hp), Hcalc.
    split; [done|]. split; [apply lookup_insert_eq|].
    repeat (split; [done|]).
    intros l Hl. by apply lookup_insert_ne.
Qed.

Lemma lower_latin1_app (a b : str) :
  lower_latin1 (a ++ b) = lower_latin1 a ++ lower_latin1 b.
Proof. apply map_app. Qed.

Lemma calculate_relevance_score_spec_witness :
  let p := mkPageData 3 (u "Threshold: the threshold is 40%") [u "| A | B |"] 0 true in
  calculate_relevance_score lower_latin1 config_py p = (4, set_relevance_score 4 p)
  /\ 0 <= fst (calculate_relevance_score lower_latin1 config_py p)
  /\ fst (calculate_relevance_score lower_latin1 config_py p) = 4
  /\ relevance_score (snd (calculate_relevance_score lower_latin1 config_py p)) = 4
  /\ (forall (h : gmap loc object) (r : loc), h !! r = Some (PageObj p) ->
        exists (h' : gmap loc object) (p' : PageData),
          calculate_relevance_score_obj lower_latin1 config_py r h = Some (4, h')
          /\ h' !! r = Some (PageObj p') /\ relevance_score p' = 4).
Proof.
  intros p.
  destruct (calculate_relevance_score_spec lower_latin1 config_py p)
    as (Hcalc & _ & _ & _ & Hnonneg & Hfst & Hscore & _ & _ & _ & _ & Hobj).
  match type of Hfst with
  | _ = ?s => assert (s = 4) as Hfour by (vm_compute; reflexivity)
  end.
  split; [rewrite Hcalc; vm_compute; reflexivity|].
  split; [rewrite Hcalc; apply Hnonneg; vm_compute; discriminate|].
  split; [exact (eq_trans Hfst Hfour)|].
  split; [exact (eq_trans Hscore Hfour)|].
  intros h r Hp. destruct (Hobj h r Hp) as (h' & p' & Hrun & Hr & Hs & _).
  exists h', p'.
  split; [exact (eq_trans Hrun (f_equal (fun s => Some (s, h')) Hfour))|].
  split; [exact Hr | exact (eq_trans Hs Hfour)].
Defined.

(** ** [list.sort] *)

Lemma StronglySorted_mono {A : Type} (R1 R2 : relation A) (l : list A) :
  (forall a b, a ∈ l -> b ∈ l -> R1 a b -> R2 a b) ->
  StronglySorted R1 l -> StronglySorted R2 l.
Proof.
  intros Himp Hs. induction Hs as [|a l Hs IH Hall]; constructor.
  - apply IH. intros x y Hx Hy. apply Himp; by right.
  - rewrite Forall_forall in *. intros x Hx.
    apply Himp; [by left | by right | by apply Hall].
Qed.

Lemma StronglySorted_filter {A : Type} (R : relation A) (P : A -> Prop)
    `{forall x, Decision (P x)} (l : list A) :
  StronglySorted R l -> StronglySorted R (filter P l).
Proof.
  induction 1 as [|a l Hs IH Hall]; [constructor|].
  rewrite filter_cons. case_decide; [|done].
  constructor; [done|]. rewrite Forall_forall in *.
  intros x Hx. apply Hall. by apply list_elem_of_filter in Hx as [_ ?].
Qed.

Lemma StronglySorted_take_closed {A : Type} (R : relation A) (l : list A)
    (n : nat) (x y : A) :
  (forall a b, R a b -> R b a -> False) ->
  StronglySorted R l ->
  x ∈ take n l -> y ∈ l -> R y x -> y ∈ take n l.
Proof.
  intros Hasym Hs Hx Hy Hyx.
  rewrite <- (take_drop n l) in Hs, Hy.
  apply elem_of_app in Hy as [Hy|Hy]; [done|].
  exfalso. apply (Hasym y x); [done|].
  by apply (StronglySorted_app_1_elem_of R (take n l) (drop n l)).
Qed.

Section ListSortFacts.
Context {A : Type}.
Variable key : A -> Z.
Variable reverse : bool.

Lemma key_first_total (a b : Z) :
  key_first reverse a b = true \/ a = b \/ key_first reverse b a = true.
Proof. unfold key_first. destruct reverse; rewrite !Z.ltb_lt; lia. Qed.

Lemma key_first_trans (a b c : Z) :
  key_first reverse a b = true -> key_first reverse b c = true ->
  key_first reverse a c = true.
Proof. unfold key_first. destruct reverse; rewrite !Z.ltb_lt; lia. Qed.

Lemma key_first_asym (a b : Z) :
  key_first reverse a b = true -> key_first reverse b a = false.
Proof.
  unfold key_first. destruct reverse; rewrite Z.ltb_lt, Z.ltb_ge; lia.
Qed.

Lemma sort_insert_perm (x : A) (l : list A) :
  sort_insert key reverse x l ≡ₚ x :: l.
Proof.
  induction l as [|y l IH]; simpl; [done|].
  destruct (key_first reverse (key y) (key x)); [|done].
  rewrite IH. apply Permutation_swap.
Qed.

Lemma list_sort_perm (l : list A) : list_sort key reverse l ≡ₚ l.
Proof.
  induction l as [|x l IH]; simpl; [done|].
  by rewrite sort_insert_perm, IH.
Qed.

Lemma elem_of_list_sort (x : A) (l : list A) :
  x ∈ list_sort key reverse l <-> x ∈ l.
Proof. by rewrite list_sort_perm. Qed.

Lemma sort_insert_stable (R : relation A) (x : A) (s : list A) :
  StronglySorted (sorted_stably key reverse R) s ->
  Forall (R x) s ->
  StronglySorted (sorted_stably key reverse R) (sort_insert key reverse x s).
Proof.
  induction 1 as [|y s Hs IH Hy]; intros Hx; simpl.
  - repeat constructor.
  - apply Forall_cons in Hx as [Hxy Hxs].
    destruct (key_first reverse (key y) (key x)) eqn:Hyx.
    + constructor; [by apply IH|].
      rewrite sort_insert_perm. constructor; [by left | done].
    + constructor; [by constructor|].
      assert (sorted_stably key reverse R x y) as Hfirst.
      { destruct (key_first_total (key x) (key y)) as [?|[?|?]];
          [by left | by right | congruence]. }
      constructor; [done|].
      rewrite Forall_forall in *. intros z Hz.
      destruct Hfirst as [Hlt|[Heq _]], (Hy z Hz) as [Hlt'|[Heq' _]].
      * left. by eapply key_first_trans.
      * left. by rewrite <- Heq'.
      * left. by rewrite Heq.
      * right. split; [congruence | by apply Hxs].
Qed.

(** The sort is stable: a list in the order [R] comes out ordered by key,
    and by [R] where the keys are equal. *)
Lemma list_sort_stable (R : relation A) (l : list A) :
  StronglySorted R l ->
  StronglySorted (sorted_stably key reverse R) (list_sort key reverse l).
Proof.
  induction 1 as [|x l Hs IH Hx]; simpl; [constructor|].
  apply sort_insert_stable; [done|].
  rewrite Forall_forall in *. intros y Hy. apply Hx.
  by apply elem_of_list_sort.
Qed.

Lemma sort_insert_filter_key (k : Z) (x : A) (s : list A) :
  filter (fun a => key a = k) (sort_insert key reverse x s)
  = filter (fun a => key a = k) (x :: s).
Proof.
  induction s as [|y s IH]; simpl; [done|].
  destruct (key_first reverse (key y) (key x)) eqn:Hyx; [|done].
  rewrite (filter_cons _ y), IH, !filter_cons.
  repeat case_decide; try done.
  assert (key y = key x) as Heq by congruence.
  rewrite Heq in Hyx. by rewrite (key_first_asym _ _ Hyx) in Hyx.
Qed.

(** Stability, element-wise: the elements of any one key come out in the
    order they went in. *)
Lemma list_sort_filter_key (k : Z) (l : list A) :
  filter (fun a => key a = k) (list_sort key reverse l)
  = filter (fun a => key a = k) l.
Proof.
  induction l as [|x l IH]; simpl; [done|].
  by rewrite sort_insert_filter_key, !filter_cons, IH.
Qed.

Lemma NoDup_keys_StronglySorted (l : list A) :
  NoDup (map key l) -> StronglySorted (fun a b => key a <> key b) l.
Proof.
  induction l as [|x l IH]; simpl; intros Hnd; [constructor|].
  apply NoDup_cons in Hnd as [Hx Hnd]. constructor; [by apply IH|].
  apply Forall_forall. intros y Hy Heq. apply Hx. rewrite Heq.
  by apply (list_elem_of_fmap_2 key).
Qed.

(** With pairwise different keys the order of the result is strict. *)
Lemma list_sort_strict (l : list A) :
  NoDup (map key l) ->
  StronglySorted (fun a b => key_first reverse (key a) (key b) = true)
                 (list_sort key reverse l).
Proof.
  intros Hnd.
  eapply StronglySorted_mono;
    [|apply list_sort_stable, NoDup_keys_StronglySorted, Hnd].
  intros a b _ _ [?|[? ?]]; done.
Qed.
End ListSortFacts.

(** ** The selector *)

Lemma slice_to_take {A : Type} (k : Z) (l : list A) :
  exists n, slice_to k l = take n l.
Proof. unfold slice_to. destruct (0 <=? k); eauto. Qed.

Lemma elem_of_scored_pages (pages : list PageData) (p : PageData) :
  p ∈ scored_pages pages <-> 0 < relevance_score p /\ p ∈ pages.
Proof. unfold scored_pages. by rewrite list_elem_of_filter. Qed.

Lemma elem_of_ranked_pages (pages : list PageData) (p : PageData) :
  p ∈ ranked_pages pages <-> 0 < relevance_score p /\ p ∈ pages.
Proof.
  unfold ranked_pages. by rewrite elem_of_list_sort, elem_of_scored_pages.
Qed.

Lemma elem_of_top_pages (cfg : Config) (pages : list PageData) (p : PageData) :
  p ∈ top_pages cfg pages -> 0 < relevance_score p /\ p ∈ pages.
Proof.
  unfold top_pages. intros Hp.
  destruct (slice_to_take (TOP_PAGES_TO_SELECT cfg) (ranked_pages pages))
    as [n Hn].
  rewrite Hn in Hp. apply subseteq_take in Hp.
  by apply elem_of_ranked_pages.
Qed.

Lemma scored_pages_nil (pages : list PageData) :
  (forall p, p ∈ pages -> relevance_score p <= 0) -> scored_pages pages = [].
Proof.
  unfold scored_pages. induction pages as [|p pages IH]; intros Hall; [done|].
  rewrite filter_cons. case_decide as Hp.
  - assert (relevance_score p <= 0) by (apply Hall; by left). lia.
  - apply IH. intros q Hq. apply Hall. by right.
Qed.

Lemma add_page_bounds (cfg : Config) (total : Z) (sel : gset Z) (p : PageData) :
  (forall n, n ∈ sel -> 1 <= n <= total) ->
  1 <= page_num p <= total ->
  forall n, n ∈ add_page cfg total sel p -> 1 <= n <= total.
Proof.
  intros Hsel Hp n. unfold add_page.
  destruct (INCLUDE_NEIGHBOR_PAGES cfg);
    [destruct (1 <? page_num p) eqn:H1, (page_num p <? total) eqn:H2|];
    rewrite ?Z.ltb_lt in *; rewrite ?elem_of_union, ?elem_of_singleton;
    intros Hn; repeat destruct Hn as [Hn|Hn]; subst; auto; lia.
Qed.

Lemma fold_add_page_bounds (cfg : Config) (total : Z) (tops : list PageData) :
  (forall p, p ∈ tops -> 1 <= page_num p <= total) ->
  forall sel : gset Z,
    (forall n, n ∈ sel -> 1 <= n <= total) ->
    forall n, n ∈ fold_left (add_page cfg total) tops sel -> 1 <= n <= total.
Proof.
  induction tops as [|p tops IH]; intros Htops sel Hsel n; simpl; [auto|].
  apply IH.
  - intros q Hq. apply Htops. by right.
  - apply add_page_bounds; [done|]. apply Htops. by left.
Qed.

Lemma page_numbers_1_N (pages : list PageData) (N : nat) :
  map page_num pages ≡ₚ seqZ 1 (Z.of_nat N) ->
  length pages = N
  /\ NoDup (map page_num pages)
  /\ (forall p, p ∈ pages -> 1 <= page_num p <= Z.of_nat N).
Proof.
  intros Hperm. split; [|split].
  - apply Permutation_length in Hperm.
    rewrite length_map, length_seqZ in Hperm. lia.
  - rewrite Hperm. apply NoDup_seqZ.
  - intros p Hp.
    assert (page_num p ∈ seqZ 1 (Z.of_nat N)) as Hin.
    { rewrite <- Hperm. by apply (list_elem_of_fmap_2 page_num). }
    apply elem_of_seqZ in Hin. lia.
Qed.

Lemma selected_pages_sorted (pages : list PageData) (nums : gset Z) :
  NoDup (map page_num pages) ->
  StronglySorted page_num_lt
    (list_sort page_num false (filter (fun p => page_num p ∈ nums) pages)).
Proof.
  intros Hnd.
  eapply StronglySorted_mono; [|apply list_sort_strict].
  - intros a b _ _ Hab. unfold page_num_lt. simpl in Hab. by apply Z.ltb_lt.
  - eapply sublist_NoDup; [exact Hnd|].
    apply (fmap_sublist page_num), sublist_filter; apply _.
Qed.

Lemma page_num_lt_NoDup (l : list PageData) :
  StronglySorted page_num_lt l -> NoDup l.
Proof.
  induction 1 as [|p l Hs IH Hp]; constructor; [|done].
  intros Hin. rewrite Forall_forall in Hp. specialize (Hp p Hin).
  unfold page_num_lt in Hp. lia.
Qed.

(** C2. On pages numbered 1..N, each number once, the selector returns only
    pages of the input (none more often than the input has it), in strictly
    ascending order of page number, without repetition, with every page
    number in [1, N]; the set of selected numbers built with the neighbours
    stays within [1, N] as well. *)
Theorem select_relevant_pages_sound
    (cfg : Config) (pages : list PageData) (N : nat) :
  map page_num pages ≡ₚ seqZ 1 (Z.of_nat N) ->
  let out := select_relevant_pages cfg pages in
  (forall p, p ∈ out -> p ∈ pages)
  /\ out ⊆+ pages
  /\ StronglySorted page_num_lt out
  /\ NoDup out
  /\ (forall p, p ∈ out -> 1 <= page_num p <= Z.of_nat N)
  /\ (forall n, n ∈ selected_page_nums cfg pages -> 1 <= n <= Z.of_nat N).
Proof.
  intros Hperm out.
  destruct (page_numbers_1_N pages N Hperm) as (Hlen & Hnd & Hrange).
  assert (out ⊆+ pages) as Hsub.
  { unfold out, select_relevant_pages.
    destruct (scored_pages pages); [apply submseteq_nil_l|].
    rewrite list_sort_perm. apply sublist_submseteq, sublist_filter; apply _. }
  assert (StronglySorted page_num_lt out) as Hsorted.
  { unfold out, select_relevant_pages.
    destruct (scored_pages pages); [constructor|].
    by apply selected_pages_sorted. }
  assert (forall p, p ∈ out -> p ∈ pages) as Hin.
  { intros p Hp. by eapply elem_of_submseteq. }
  split; [done|]. split; [done|]. split; [done|].
  split; [by apply page_num_lt_NoDup|].
  split; [intros p Hp; by apply Hrange, Hin|].
  unfold selected_page_nums. rewrite Hlen.
  apply fold_add_page_bounds; [|set_solver].
  intros p Hp. by apply Hrange, (elem_of_top_pages cfg).
Qed.

Lemma select_relevant_pages_sound_witness :
  let pages := [mkPageData 1 (u "forecast") [] 1 false;
                mkPageData 2 [] [] 0 false;
                mkPageData 3 (u "threshold threshold") [u "| A |"] 4 true;
                mkPageData 4 [] [] 0 false;
                mkPageData 5 [] [] 0 false] in
  map page_num pages ≡ₚ seqZ 1 (Z.of_nat 5)
  /\ StronglySorted page_num_lt (select_relevant_pages config_py pages)
  /\ (forall n, n ∈ selected_page_nums config_py pages -> 1 <= n <= Z.of_nat 5).
Proof.
  intros pages.
  assert (map page_num pages ≡ₚ seqZ 1 (Z.of_nat 5)) as Hperm by reflexivity.
  split; [exact Hperm|].
  destruct (select_relevant_pages_sound config_py pages 5 Hperm)
    as (_ & _ & Hsorted & _ & _ & Hnums).
  split; [exact Hsorted | exact Hnums].
Defined.

Lemma ranks_before_sorted_stably (p q : PageData) :
  sorted_stably relevance_score true page_num_lt p q <-> ranks_before p q.
Proof.
  unfold sorted_stably, ranks_before, page_num_lt, key_first.
  by rewrite Z.ltb_lt.
Qed.

Lemma ranks_before_asym (p q : PageData) :
  ranks_before p q -> ranks_before q p -> False.
Proof. unfold ranks_before. lia. Qed.

Lemma ranked_pages_sorted (pages : list PageData) :
  StronglySorted page_num_lt pages ->
  StronglySorted ranks_before (ranked_pages pages).
Proof.
  intros Hs. unfold ranked_pages, scored_pages.
  eapply StronglySorted_mono;
    [|apply list_sort_stable, StronglySorted_filter, Hs].
  intros a b _ _. apply ranks_before_sorted_stably.
Qed.

(** C5. The ranking by score is stable.  The pages of any one score stand
    in the ranking in the order they had in the input; on an input in
    ascending page order the ranking is by score, higher first, and by page
    number, lower first, among equal scores; hence when a page is among the
    top pages, every page of the same score and a lower number is among
    them too. *)
Theorem ranking_is_stable (cfg : Config) (pages : list PageData) :
  StronglySorted page_num_lt pages ->
  (forall s, filter (fun p => relevance_score p = s) (ranked_pages pages)
             = filter (fun p => relevance_score p = s) (scored_pages pages))
  /\ StronglySorted ranks_before (ranked_pages pages)
  /\ (forall p q, p ∈ top_pages cfg pages -> q ∈ pages ->
        relevance_score q = relevance_score p -> page_num q < page_num p ->
        q ∈ top_pages cfg pages).
Proof.
  intros Hs. split; [|split].
  - intros s. apply list_sort_filter_key.
  - by apply ranked_pages_sorted.
  - intros p q Hp Hq Hscore Hnum.
    destruct (elem_of_top_pages cfg pages p Hp) as [Hpos _].
    unfold top_pages in *.
    destruct (slice_to_take (TOP_PAGES_TO_SELECT cfg) (ranked_pages pages))
      as [n Hn].
    rewrite Hn in *.
    apply (StronglySorted_take_closed ranks_before _ n p q);
      [apply ranks_before_asym | by apply ranked_pages_sorted | done | |].
    + apply elem_of_ranked_pages. split; [lia | done].
    + right. by split.
Qed.

Lemma ranking_is_stable_witness :
  let cfg := mkConfig [] 1 2 1 true in
  let p1 := mkPageData 1 [] [] 0 false in
  let p2 := mkPageData 2 [] [] 3 false in
  let p3 := mkPageData 3 [] [] 5 false in
  let p4 := mkPageData 4 [] [] 3 false in
  let p5 := mkPageData 5 [] [] 5 false in
  StronglySorted page_num_lt [p1; p2; p3; p4; p5]
  /\ ranked_pages [p1; p2; p3; p4; p5] = [p3; p5; p2; p4]
  /\ top_pages cfg [p1; p2; p3; p4; p5] = [p3]
  /\ StronglySorted ranks_before (ranked_pages [p1; p2; p3; p4; p5]).
Proof.
  intros cfg p1 p2 p3 p4 p5.
  assert (StronglySorted page_num_lt [p1; p2; p3; p4; p5]) as Hs.
  { repeat constructor; unfold page_num_lt; simpl; lia. }
  split; [exact Hs|].
  split; [vm_compute; reflexivity|].
  split; [vm_compute; reflexivity|].
  exact (proj1 (proj2 (ranking_is_stable cfg _ Hs))).
Defined.

(** C7. When no page has a positive score, the selector returns the empty
    list. *)
Theorem select_relevant_pages_none (cfg : Config) (pages : list PageData) :
  (forall p, p ∈ pages -> ~ 0 < relevance_score p) ->
  select_relevant_pages cfg pages = [].
Proof.
  intros Hall. unfold select_relevant_pages.
  rewrite scored_pages_nil; [done|].
  intros p Hp. specialize (Hall p Hp). lia.
Qed.

Lemma select_relevant_pages_none_witness :
  let pages := [mkPageData 1 (u "summary") [] 0 false;
                mkPageData 2 [] [u "| A |"] 0 false] in
  (forall p, p ∈ pages -> ~ 0 < relevance_score p)
  /\ select_relevant_pages config_py pages = [].
Proof.
  intros pages.
  assert (forall p, p ∈ pages -> ~ 0 < relevance_score p) as Hall.
  { intros p Hp. unfold pages in Hp.
    rewrite !elem_of_cons, elem_of_nil in Hp.
    destruct Hp as [->|[->|[]]]; simpl; lia. }
  split; [exact Hall|].
  exact (select_relevant_pages_none config_py pages Hall).
Defined.

(** C4. Five pages, page 3 with score 4, page 1 with score 1, pages 2, 4
    and 5 with score 0, one top page and the neighbours included: page 3 is
    the top page, the pages returned are 2, 3 and 4 in that order, and
    page 1, whose score is positive, is not among them. *)
Theorem select_five_pages_scenario
    (keywords : list str) (w b : Z)
    (t1 t2 t3 t4 t5 : str) (tb1 tb2 tb3 tb4 tb5 : list str)
    (h1 h2 h3 h4 h5 : bool) :
  let cfg := mkConfig keywords w b 1 true in
  let p1 := mkPageData 1 t1 tb1 1 h1 in
  let p2 := mkPageData 2 t2 tb2 0 h2 in
  let p3 := mkPageData 3 t3 tb3 4 h3 in
  let p4 := mkPageData 4 t4 tb4 0 h4 in
  let p5 := mkPageData 5 t5 tb5 0 h5 in
  top_pages cfg [p1; p2; p3; p4; p5] = [p3]
  /\ selected_page_nums cfg [p1; p2; p3; p4; p5] = {[ 2; 3; 4 ]}
  /\ select_relevant_pages cfg [p1; p2; p3; p4; p5] = [p2; p3; p4]
  /\ 0 < relevance_score p1
  /\ p1 ∉ select_relevant_pages cfg [p1; p2; p3; p4; p5].
Proof.
  intros cfg p1 p2 p3 p4 p5.
  assert (select_relevant_pages cfg [p1; p2; p3; p4; p5] = [p2; p3; p4]) as Hsel
    by (vm_compute; reflexivity).
  split; [vm_compute; reflexivity|].
  split; [apply set_eq; intros n; vm_compute; set_solver|].
  split; [exact Hsel|].
  split; [simpl; lia|].
  rewrite Hsel, !elem_of_cons, elem_of_nil.
  intros [H|[H|[H|[]]]]; discriminate H.
Qed.

(** The same scenario from the texts: the scorer gives the five pages the
    scores 1, 0, 4, 0 and 0, and the selector returns pages 2, 3 and 4. *)
Example scored_five_pages_scenario :
  let cfg := mkConfig (RELEVANCE_KEYWORDS config_py) 1 2 1 true in
  let pages :=
    [ PageData_default 1 (u "The forecast is issued weekly.");
      PageData_default 2 (u "Contents");
      mkPageData 3 (u "Threshold: the threshold is 40%") [table_AB] 0 true;
      PageData_default 4 (u "Annex");
      PageData_default 5 (u "Contacts") ] in
  let scored := score_all_pages lower_latin1 cfg pages in
  map relevance_score scored = [1; 0; 4; 0; 0]
  /\ map page_num (select_relevant_pages cfg scored) = [2; 3; 4].
Proof. split; vm_compute; reflexivity. Qed.

(** ** The payload builder *)

Lemma append_tables_concat (parts : list str) (tbls : list str) :
  concat (append_tables parts tbls)
  = concat parts ++ concat (map (fun t => t ++ nl) tbls).
Proof.
  unfold append_tables. revert parts.
  induction tbls as [|t tbls IH]; intros parts; simpl.
  - by rewrite app_nil_r.
  - rewrite IH, !concat_app, !concat_cons, !concat_nil.
    by rewrite !app_nil_r, <- !app_assoc.
Qed.

Lemma append_page_concat (parts : list str) (p : PageData) :
  concat (append_page parts p) = concat parts ++ page_block p.
Proof.
  unfold append_page, page_block, tables_section, text_section.
  destruct (tables p) as [|t tbls] eqn:Htb, (strip (text p)) as [|c s] eqn:Hst;
    rewrite ?concat_app, ?append_tables_concat, ?concat_app;
    rewrite ?concat_cons, ?concat_nil, ?app_nil_r, <- ?app_assoc; done.
Qed.

Lemma fold_append_page_concat (pages : list PageData) (parts : list str) :
  concat (fold_left append_page pages parts)
  = concat parts ++ concat (map page_block pages).
Proof.
  revert parts. induction pages as [|p pages IH]; intros parts; simpl.
  - by rewrite app_nil_r.
  - by rewrite IH, append_page_concat, <- app_assoc.
Qed.

Lemma construct_payload_blocks (pages : list PageData) :
  construct_payload pages = concat (map page_block pages).
Proof.
  unfold construct_payload. destruct pages as [|p pages]; [done|].
  by rewrite fold_append_page_concat.
Qed.

(** C3, as amended. [construct_payload] is the concatenation, page after
    page in the order given, of the page header with the page number, then
    (when the page has tables) the tables marker and every table in order,
    each followed by a line feed, then (when the trimmed text is not empty)
    the text marker, the trimmed text and a line feed; the empty list gives
    the empty string; the payload of the two example pages holds the text
    section of page 2 and then the tables section of page 3. *)
Theorem construct_payload_spec (pages : list PageData) :
  construct_payload pages
  = concat (map (fun p => page_header (page_num p)
                          ++ tables_section p ++ text_section p) pages)
  /\ (forall p, tables_section p
        = match tables p with
          | [] => []
          | _ :: _ => tables_marker ++ concat (map (fun t => t ++ nl) (tables p))
          end)
  /\ (forall p, text_section p
        = match strip (text p) with
          | [] => []
          | _ :: _ => text_marker ++ strip (text p) ++ nl
          end)
  /\ construct_payload [] = []
  /\ construct_payload [page2_flood; page3_table]
     = (page_header 2 ++ text_marker ++ u "Flood threshold 40%" ++ nl)
       ++ (page_header 3 ++ tables_marker ++ table_AB ++ nl)
  /\ page_header 2 = nl ++ u "--- PAGE 2 ---" ++ nl
  /\ page_header 3 = nl ++ u "--- PAGE 3 ---" ++ nl.
Proof.
  split; [apply construct_payload_blocks|].
  repeat split; vm_compute; reflexivity.
Qed.

(** C3, counterexample.  For the single page 2 of the example the payload
    ends in a line feed after the trimmed text, which the description
    (marker followed by the trimmed text, nothing added) does not have. *)
Lemma construct_payload_not_described :
  StronglySorted page_num_lt [page2_flood]
  /\ construct_payload [page2_flood] = described_payload [page2_flood] ++ nl
  /\ construct_payload [page2_flood] <> described_payload [page2_flood].
Proof.
  split; [repeat constructor|].
  split; [vm_compute; reflexivity | vm_compute; discriminate].
Qed.

(** ** The table bonus and the keyword list *)

Lemma corpus_set_has_tables (lower : str -> str) (b : bool) (p : PageData) :
  corpus lower (set_has_tables b p) = corpus lower p.
Proof. done. Qed.

(** C9. The bonus follows the [has_tables] field, not the [tables] list:
    with the field unset the score is the keyword sum over the corpus, the
    tables being part of the corpus, and no bonus; with the field set the
    bonus is added.  A page built with a table and the default
    [has_tables=False] has its table keywords counted and no bonus. *)
Theorem table_bonus_follows_flag
    (lower : str -> str) (cfg : Config) (p : PageData) :
  let keyword_sum :=
    Zsum (map (fun k => Z.of_nat (count (corpus lower p) (lower k)) * KEYWORD_SCORE cfg)
              (RELEVANCE_KEYWORDS cfg)) in
  fst (calculate_relevance_score lower cfg (set_has_tables false p)) = keyword_sum
  /\ fst (calculate_relevance_score lower cfg (set_has_tables true p))
     = keyword_sum + TABLE_BONUS_SCORE cfg
  /\ fst (calculate_relevance_score lower_latin1 config_py
            (mkPageData 1 [] [u "Trigger | Threshold"] 0 false)) = 2
  /\ fst (calculate_relevance_score lower_latin1 config_py
            (mkPageData 1 [] [u "Trigger | Threshold"] 0 true)) = 4.
Proof.
  intros keyword_sum. rewrite !score_described. unfold described_score.
  rewrite !corpus_set_has_tables. simpl has_tables.
  repeat split; try (vm_compute; reflexivity). unfold keyword_sum. lia.
Qed.

Lemma Zsum_split_key (f : str -> Z) (x : str) (l : list str) :
  Zsum (map f l)
  = Z.of_nat (length (filter (fun k => k = x) l)) * f x
    + Zsum (map f (filter (fun k => k <> x) l)).
Proof.
  induction l as [|k l IH]; [simpl; lia|].
  rewrite !filter_cons. simpl. rewrite IH.
  destruct (decide (k = x)) as [->|Hne].
  - rewrite decide_False by (intros H; by apply H). simpl length. lia.
  - rewrite decide_True by done. simpl. lia.
Qed.

Lemma Zsum_map_ext (f g : str -> Z) (l : list str) :
  (forall k, k ∈ l -> f k = g k) -> Zsum (map f l) = Zsum (map g l).
Proof.
  induction l as [|k l IH]; intros Hfg; simpl; [done|].
  rewrite Hfg by (by left). rewrite IH; [done|].
  intros k' Hk'. apply Hfg. by right.
Qed.

(** C10. The keyword list of [config.py] holds 'condition' twice, so the
    score counts every occurrence of 'condition' in the corpus twice: it is
    twice the number of occurrences times the weight, plus the sum over the
    other keywords, plus the table bonus.  A page with the text 'condition',
    no tables and the default weights scores 2. *)
Theorem condition_counted_twice (lower : str -> str) (p : PageData) :
  (forall k, k ∈ RELEVANCE_KEYWORDS config_py -> lower k = k) ->
  length (filter (fun k => k = u "condition") (RELEVANCE_KEYWORDS config_py)) = 2%nat
  /\ u "condition" ∈ keywords_english /\ u "condition" ∈ keywords_french
  /\ fst (calculate_relevance_score lower config_py p)
     = 2 * (Z.of_nat (count (corpus lower p) (u "condition")) * KEYWORD_SCORE config_py)
       + Zsum (map (fun k => Z.of_nat (count (corpus lower p) k) * KEYWORD_SCORE config_py)
                   (filter (fun k => k <> u "condition") (RELEVANCE_KEYWORDS config_py)))
       + (if has_tables p then TABLE_BONUS_SCORE config_py else 0)
  /\ (text p = u "condition" -> tables p = [] -> has_tables p = false ->
      fst (calculate_relevance_score lower config_py p) = 2).
Proof.
  intros Hlow.
  assert (length (filter (fun k => k = u "condition") (RELEVANCE_KEYWORDS config_py))
          = 2%nat) as Hlen by (vm_compute; reflexivity).
  assert (fst (calculate_relevance_score lower config_py p)
          = Zsum (map (fun k => Z.of_nat (count (corpus lower p) k) * KEYWORD_SCORE config_py)
                      (RELEVANCE_KEYWORDS config_py))
            + (if has_tables p then TABLE_BONUS_SCORE config_py else 0)) as Hscore.
  { rewrite score_described. unfold described_score. f_equal.
    apply Zsum_map_ext. intros k Hk. by rewrite (Hlow k Hk). }
  split; [exact Hlen|].
  split; [apply (bool_decide_unpack _); vm_compute; exact I|].
  split; [apply (bool_decide_unpack _); vm_compute; exact I|].
  split.
  - rewrite Hscore.
    rewrite (Zsum_split_key _ (u "condition") (RELEVANCE_KEYWORDS config_py)), Hlen.
    lia.
  - intros Htext Htables Hflag. rewrite Hscore, Hflag.
    unfold corpus. rewrite Htext, Htables.
    rewrite (Hlow (u "condition")) by (apply (bool_decide_unpack _); vm_compute; exact I).
    vm_compute. reflexivity.
Qed.

Lemma condition_counted_twice_witness :
  (forall k, k ∈ RELEVANCE_KEYWORDS config_py -> lower_latin1 k = k)
  /\ fst (calculate_relevance_score lower_latin1 config_py
            (PageData_default 1 (u "condition"))) = 2.
Proof.
  assert (forall k, k ∈ RELEVANCE_KEYWORDS config_py -> lower_latin1 k = k) as Hlow.
  { apply Forall_forall. apply (bool_decide_unpack _). vm_compute. exact I. }
  split; [exact Hlow|].
  destruct (condition_counted_twice lower_latin1
              (PageData_default 1 (u "condition")) Hlow) as (_ & _ & _ & _ & H).
  apply H; reflexivity.
Defined.

(** ** Adding an occurrence of a keyword *)

Lemma startswith_length (sub s : str) :
  startswith sub s = true -> (length sub <= length s)%nat.
Proof.
  intros [r ->]%startswith_spec. rewrite length_app. lia.
Qed.

Lemma startswith_app (sub a b : str) :
  startswith sub a = true -> startswith sub (a ++ b) = true.
Proof.
  intros [r ->]%startswith_spec. apply startswith_spec.
  exists (r ++ b). by rewrite app_assoc.
Qed.

Lemma startswith_app_inv (sub a b : str) :
  startswith sub (a ++ b) = true -> (length sub <= length a)%nat ->
  startswith sub a = true.
Proof.
  revert a. induction sub as [|x sub IH]; intros a; [done|].
  destruct a as [|y a]; simpl; [lia|].
  rewrite !andb_true_iff. intros [? ?] ?. split; [done|].
  apply IH; [done | lia].
Qed.

Lemma count_scan_short (sub s : str) (k : nat) :
  (length s < k + length sub)%nat -> count_scan sub s k = 0%nat.
Proof.
  revert k. induction s as [|c s IH]; intros k Hlen; [done|].
  simpl in Hlen. destruct k as [|k]; simpl count_scan.
  - destruct (startswith sub (c :: s)) eqn:Hsw.
    + apply startswith_length in Hsw. simpl in Hsw. lia.
    + apply IH. lia.
  - apply IH. lia.
Qed.

Lemma count_scan_skip_mono (sub s : str) :
  (forall k, count_scan sub s (S k) <= count_scan sub s k)%nat ->
  forall k k', (k <= k')%nat ->
    (count_scan sub s k' <= count_scan sub s k)%nat.
Proof.
  intros Hstep k k' Hle. induction Hle as [|k' Hle IH]; [done|].
  etrans; [apply Hstep | apply IH].
Qed.

(** Starting the scan later loses occurrences, and at most one when it
    starts within the length of [sub]. *)
Lemma count_scan_later (sub s : str) :
  (forall k, count_scan sub s (S k) <= count_scan sub s k)%nat
  /\ (forall t, (t <= length sub)%nat ->
        count_scan sub s 0 <= S (count_scan sub s t))%nat.
Proof.
  induction s as [|c s [IHM IHL]]; [simpl; split; intros; lia|].
  split.
  - intros [|k]; simpl count_scan; [|apply IHM].
    destruct (startswith sub (c :: s)); [|done].
    apply IHL. lia.
  - intros [|t] Ht; [lia|]. simpl count_scan.
    destruct (startswith sub (c :: s)).
    + apply le_n_S. apply (count_scan_skip_mono sub s IHM). lia.
    + apply IHL. lia.
Qed.

Lemma count_scan_app (sub a b : str) (k : nat) :
  (k <= length sub)%nat ->
  (count_scan sub a k + count_scan sub b 0
   <= count_scan sub (a ++ b) k + (if decide (length a < k)%nat then 1 else 0))%nat.
Proof.
  revert k. induction a as [|c a IH]; intros k Hk.
  - simpl. destruct k as [|k].
    + rewrite decide_False by lia. lia.
    + rewrite decide_True by lia.
      pose proof (proj2 (count_scan_later sub b) (S k) Hk). lia.
  - destruct k as [|k].
    + rewrite decide_False by (simpl; lia).
      change ((c :: a) ++ b) with (c :: (a ++ b)). simpl count_scan.
      change (c :: (a ++ b)) with ((c :: a) ++ b).
      destruct (startswith sub (c :: a)) eqn:Hsw.
      * rewrite (startswith_app _ _ b Hsw).
        pose proof (IH (pred (length sub))) as IH'.
        apply startswith_length in Hsw. simpl in Hsw.
        rewrite decide_False in IH' by lia. lia.
      * destruct (startswith sub ((c :: a) ++ b)) eqn:Hsw'.
        -- assert (length (c :: a) < length sub)%nat as Hshort.
           { destruct (decide (length sub <= length (c :: a))%nat); [|lia].
             rewrite (startswith_app_inv _ _ _ Hsw') in Hsw; done. }
           simpl in Hshort.
           rewrite (count_scan_short sub a 0) by lia.
           pose proof (IH (pred (length sub))) as IH'.
           destruct (decide (length a < pred (length sub))%nat); lia.
        -- pose proof (IH 0%nat) as IH'.
           rewrite decide_False in IH' by lia. lia.
    + change ((c :: a) ++ b) with (c :: (a ++ b)). simpl count_scan.
      pose proof (IH k) as IH'.
      destruct (decide (length a < k)%nat), (decide (length (c :: a) < S k)%nat);
        simpl in *; lia.
Qed.

(** The occurrences counted in a concatenation are at least those counted
    in its two parts. *)
Lemma count_scan_superadditive (sub a b : str) :
  (count_scan sub a 0 + count_scan sub b 0 <= count_scan sub (a ++ b) 0)%nat.
Proof.
  pose proof (count_scan_app sub a b 0) as H.
  rewrite decide_False in H by lia. lia.
Qed.

Lemma count_app_l (a b sub : str) : (count b sub <= count (a ++ b) sub)%nat.
Proof.
  destruct sub as [|x sub]; simpl.
  - rewrite length_app. lia.
  - pose proof (count_scan_superadditive (x :: sub) a b). lia.
Qed.

Lemma count_app_r (a b sub : str) : (count a sub <= count (a ++ b) sub)%nat.
Proof.
  destruct sub as [|x sub]; simpl.
  - rewrite length_app. lia.
  - pose proof (count_scan_superadditive (x :: sub) a b). lia.
Qed.

Lemma count_self (sub : str) : sub <> [] -> count sub sub = 1%nat.
Proof.
  intros Hne. destruct sub as [|x sub]; [done|]. unfold count.
  by rewrite (count_scan_hit (x :: sub) (x :: sub) []) by (by rewrite ?app_nil_r).
Qed.

Lemma count_app_self_l (sub b : str) :
  sub <> [] -> (S (count b sub) <= count (sub ++ b) sub)%nat.
Proof.
  intros Hne. pose proof (count_self sub Hne) as Hself.
  destruct sub as [|x sub]; [done|]. unfold count in *.
  pose proof (count_scan_superadditive (x :: sub) (x :: sub) b). lia.
Qed.

Lemma count_app_self_r (sub a : str) :
  sub <> [] -> (S (count a sub) <= count (a ++ sub) sub)%nat.
Proof.
  intros Hne. pose proof (count_self sub Hne) as Hself.
  destruct sub as [|x sub]; [done|]. unfold count in *.
  pose proof (count_scan_superadditive (x :: sub) a (x :: sub)). lia.
Qed.

Lemma Zsum_map_increase (f g : str -> Z) (w : Z) (k : str) (l : list str) :
  0 <= w -> k ∈ l ->
  (forall x, x ∈ l -> f x <= g x) -> f k + w <= g k ->
  Zsum (map f l) + w <= Zsum (map g l).
Proof.
  intros Hw Hk Hle Hkw.
  assert (forall l', (forall x, x ∈ l' -> f x <= g x) ->
            Zsum (map f l') <= Zsum (map g l')) as Hmono.
  { induction l' as [|x l' IH]; intros Hall; simpl; [lia|].
    pose proof (Hall x (list_elem_of_here _ _)).
    pose proof (IH (fun y Hy => Hall y (list_elem_of_further _ _ _ Hy))). lia. }
  apply list_elem_of_split in Hk as (l1 & l2 & ->).
  rewrite !map_app, !Zsum_app. simpl.
  pose proof (Hmono l1 (fun y Hy => Hle y (proj2 (elem_of_app _ _ _) (or_introl Hy)))).
  pose proof (Hmono l2 (fun y Hy =>
    Hle y (proj2 (elem_of_app _ _ _) (or_intror (list_elem_of_further _ _ _ Hy))))).
  lia.
Qed.

Lemma corpus_set_text (lower : str -> str) (t : str) (p : PageData) :
  corpus lower (set_text t p)
  = lower t ++ concat (map (fun tb => u " " ++ lower tb) (tables p)).
Proof. done. Qed.

Lemma score_increase (lower : str -> str) (cfg : Config) (p : PageData)
    (k t : str) :
  0 <= KEYWORD_SCORE cfg -> k ∈ RELEVANCE_KEYWORDS cfg ->
  (forall x, x ∈ RELEVANCE_KEYWORDS cfg ->
     count (corpus lower p) (lower x)
     <= count (corpus lower (set_text t p)) (lower x))%nat ->
  (S (count (corpus lower p) (lower k))
   <= count (corpus lower (set_text t p)) (lower k))%nat ->
  fst (calculate_relevance_score lower cfg p) + KEYWORD_SCORE cfg
  <= fst (calculate_relevance_score lower cfg (set_text t p)).
Proof.
  intros Hw Hk Hall Hone. rewrite !score_described. unfold described_score.
  simpl has_tables.
  pose proof (Zsum_map_increase
    (fun k => Z.of_nat (count (corpus lower p) (lower k)) * KEYWORD_SCORE cfg)
    (fun k => Z.of_nat (count (corpus lower (set_text t p)) (lower k)) * KEYWORD_SCORE cfg)
    (KEYWORD_SCORE cfg) k (RELEVANCE_KEYWORDS cfg) Hw Hk) as Hsum.
  lapply Hsum; [clear Hsum; intros Hsum; lapply Hsum; [lia|] |].
  - simpl. nia.
  - intros x Hx. simpl. specialize (Hall x Hx). nia.
Qed.

(** *** Lowercasing and the two small sigmas *)

Lemma same_up_to_sigma_refl (s : str) : same_up_to_sigma s s.
Proof. induction s; constructor; auto. Qed.

Lemma same_up_to_sigma_app (s1 t1 s2 t2 : str) :
  same_up_to_sigma s1 t1 -> same_up_to_sigma s2 t2 ->
  same_up_to_sigma (s1 ++ s2) (t1 ++ t2).
Proof. apply Forall2_app. Qed.

Lemma small_sigma_neq (a x : N) :
  small_sigma a = false -> small_sigma x = true -> (a =? x)%N = false.
Proof. intros Ha Hx. apply N.eqb_neq. intros ->. congruence. Qed.

(** A string without a small sigma starts both or neither of two strings
    that are the same up to their small sigmas. *)
Lemma startswith_up_to_sigma (sub s t : str) :
  sigma_free sub = true -> same_up_to_sigma s t ->
  startswith sub s = startswith sub t.
Proof.
  intros Hfree Hst. revert sub Hfree.
  induction Hst as [|x y s t Hxy Hst IH]; intros [|a sub] Hfree; simpl; try done.
  simpl in Hfree. apply andb_true_iff in Hfree as [Ha Hfree].
  apply negb_true_iff in Ha.
  rewrite (IH sub Hfree). destruct Hxy as [->|[Hx Hy]]; [done|].
  by rewrite (small_sigma_neq a x Ha Hx), (small_sigma_neq a y Ha Hy).
Qed.

Lemma count_scan_up_to_sigma (sub s t : str) :
  sigma_free sub = true -> same_up_to_sigma s t ->
  forall k, count_scan sub s k = count_scan sub t k.
Proof.
  intros Hfree Hst. induction Hst as [|x y s t Hxy Hst IH]; intros k; [done|].
  assert (same_up_to_sigma (x :: s) (y :: t)) as Hcons by (by constructor).
  cbn [count_scan]. destruct k as [|k]; [|apply IH].
  rewrite (startswith_up_to_sigma sub (x :: s) (y :: t) Hfree Hcons).
  by rewrite !IH.
Qed.

(** So it occurs as often in the one as in the other. *)
Lemma count_up_to_sigma (s t sub : str) :
  sigma_free sub = true -> same_up_to_sigma s t -> count s sub = count t sub.
Proof.
  intros Hfree Hst. destruct sub as [|a sub]; simpl.
  - by rewrite (Forall2_length _ _ _ Hst).
  - by apply count_scan_up_to_sigma.
Qed.

Section StrLowerFacts.
Variable to_lower_full : N -> str.
Variable is_cased : N -> bool.
Variable is_case_ignorable : N -> bool.

Lemma handle_capital_sigma_small (before after : str) :
  small_sigma (handle_capital_sigma is_cased is_case_ignorable before after)
  = true.
Proof.
  unfold handle_capital_sigma.
  match goal with
  | |- context [if ?b then 962%N else 963%N] => by destruct b
  end.
Qed.

(** What a character gives depends on the characters around it only in
    which small sigma a capital sigma gives. *)
Lemma lower_ucs4_up_to_sigma (b a b' a' : str) (c : N) :
  same_up_to_sigma
    (lower_ucs4 to_lower_full is_cased is_case_ignorable b a c)
    (lower_ucs4 to_lower_full is_cased is_case_ignorable b' a' c).
Proof.
  unfold lower_ucs4. destruct (c =? 931)%N.
  - constructor; [|constructor]. right.
    split; apply handle_capital_sigma_small.
  - apply same_up_to_sigma_refl.
Qed.

Lemma do_lower_context (s : str) :
  forall b b' : str,
    same_up_to_sigma
      (do_lower to_lower_full is_cased is_case_ignorable b s)
      (do_lower to_lower_full is_cased is_case_ignorable b' s).
Proof.
  induction s as [|c s IH]; intros b b'; [constructor|]. simpl.
  apply same_up_to_sigma_app; [apply lower_ucs4_up_to_sigma | apply IH].
Qed.

Lemma do_lower_app (s1 s2 : str) :
  forall b b1 b2 : str,
    same_up_to_sigma
      (do_lower to_lower_full is_cased is_case_ignorable b (s1 ++ s2))
      (do_lower to_lower_full is_cased is_case_ignorable b1 s1
       ++ do_lower to_lower_full is_cased is_case_ignorable b2 s2).
Proof.
  induction s1 as [|c s1 IH]; intros b b1 b2; simpl.
  - apply do_lower_context.
  - rewrite <- app_assoc.
    apply same_up_to_sigma_app; [apply lower_ucs4_up_to_sigma | apply IH].
Qed.

(** [str.lower] of a concatenation is the concatenation of the lower cases,
    up to the small sigmas. *)
Lemma str_lower_app (a b : str) :
  same_up_to_sigma
    (str_lower to_lower_full is_cased is_case_ignorable (a ++ b))
    (str_lower to_lower_full is_cased is_case_ignorable a
     ++ str_lower to_lower_full is_cased is_case_ignorable b).
Proof. apply do_lower_app. Qed.

(** Where the database lowers Basic Latin and Latin-1 as [lower_cp_latin1]
    does, [str.lower] is [lower_latin1] on the strings of these blocks. *)
Lemma do_lower_latin1 (s : str) :
  (forall c, (c < 256)%N -> to_lower_full c = [lower_cp_latin1 c]) ->
  forallb (fun c => (c <? 256)%N) s = true ->
  forall b,
    do_lower to_lower_full is_cased is_case_ignorable b s = lower_latin1 s.
Proof.
  intros Hdb. induction s as [|c s IH]; intros Hs b; [done|].
  simpl in Hs. apply andb_true_iff in Hs as [Hc Hs].
  apply N.ltb_lt in Hc. simpl. unfold lower_ucs4.
  destruct (N.eqb_spec c 931) as [->|_]; [lia|].
  by rewrite (Hdb c Hc), (IH Hs).
Qed.

(** The keywords of [config.py] are lowered without a small sigma. *)
Lemma config_py_sigma_free :
  (forall c, (c < 256)%N -> to_lower_full c = [lower_cp_latin1 c]) ->
  forallb (fun k => sigma_free
                      (str_lower to_lower_full is_cased is_case_ignorable k))
          (RELEVANCE_KEYWORDS config_py)
  = true.
Proof.
  intros Hdb. apply forallb_forall. intros k Hk.
  assert (forallb (fun k => forallb (fun c => (c <? 256)%N) k
                            && sigma_free (lower_latin1 k))
                  (RELEVANCE_KEYWORDS config_py) = true) as Hall
    by (vm_compute; reflexivity).
  rewrite forallb_forall in Hall. specialize (Hall k Hk).
  apply andb_true_iff in Hall as [Hlatin Hfree].
  unfold str_lower. by rewrite (do_lower_latin1 k Hdb Hlatin).
Qed.
End StrLowerFacts.

(** The final sigma: [str.lower] of a concatenation is not the
    concatenation of the lower cases. *)
Example str_lower_final_sigma :
  lower_excerpt (u "Σ") = u "σ"
  /\ lower_excerpt (u "alert") = u "alert"
  /\ lower_excerpt (u "alert" ++ u "Σ") = u "alertς"
  /\ lower_excerpt (u "ΟΔΟΣ, ΟΔΟΣ'Α Σ") = u "οδος, οδοσ'α σ"
  /\ lower_excerpt (u "Déclencheur: ÉTÉ") = u "déclencheur: été".
Proof. repeat split; vm_compute; reflexivity. Qed.

(** A keyword with a capital sigma can be added without its lower case
    occurring in the lowered text. *)
Example keyword_with_sigma_not_found :
  let score := fun q => fst (calculate_relevance_score lower_excerpt config_sigma q) in
  u "ΑΣ" ∈ RELEVANCE_KEYWORDS config_sigma
  /\ lower_excerpt (u "ΑΣ") = u "ας"
  /\ lower_excerpt (u "ΑΣ" ++ u "Β") = u "ασβ"
  /\ score (PageData_default 1 (u "Β")) = 0
  /\ score (PageData_default 1 (u "ΑΣ" ++ u "Β")) = 0.
Proof.
  intros score. split; [apply list_elem_of_here|].
  repeat split; vm_compute; reflexivity.
Qed.

(** C6, as amended.  [str.lower] being that of CPython, whatever the
    Unicode database, and no lowercased keyword of the list having a small
    sigma (as in [config.py]): with a non-negative weight, a keyword of the
    list put in front of the text of a page raises the score by at least
    [KEYWORD_SCORE]; so does a keyword put at the end of the text of a page
    without tables.  This holds for every text, also one that begins or
    ends with a capital sigma, whose lower case changes with the keyword
    next to it. *)
Theorem keyword_occurrence_raises_score
    (to_lower_full : N -> str) (is_cased is_case_ignorable : N -> bool)
    (cfg : Config) (p : PageData) (k : str) :
  let lower := str_lower to_lower_full is_cased is_case_ignorable in
  let score := fun q => fst (calculate_relevance_score lower cfg q) in
  0 <= KEYWORD_SCORE cfg -> k ∈ RELEVANCE_KEYWORDS cfg -> lower k <> [] ->
  forallb (fun k' => sigma_free (lower k')) (RELEVANCE_KEYWORDS cfg) = true ->
  score p + KEYWORD_SCORE cfg <= score (set_text (k ++ text p) p)
  /\ (tables p = [] ->
      score p + KEYWORD_SCORE cfg <= score (set_text (text p ++ k) p)).
Proof.
  intros lower score Hw Hk Hne Hfree.
  assert (forall x, x ∈ RELEVANCE_KEYWORDS cfg -> sigma_free (lower x) = true)
    as Hfree'.
  { intros x Hx. rewrite forallb_forall in Hfree.
    by apply Hfree, list_elem_of_In. }
  set (T := concat (map (fun tb => u " " ++ lower tb) (tables p))).
  assert (same_up_to_sigma (corpus lower (set_text (k ++ text p) p))
                           (lower k ++ corpus lower p)) as Hfront.
  { rewrite corpus_set_text. unfold corpus. fold T. rewrite app_assoc.
    apply same_up_to_sigma_app; [apply str_lower_app|].
    apply same_up_to_sigma_refl. }
  assert (same_up_to_sigma (corpus lower (set_text (text p ++ k) p))
                           ((lower (text p) ++ lower k) ++ T)) as Hback.
  { rewrite corpus_set_text. fold T.
    apply same_up_to_sigma_app; [apply str_lower_app|].
    apply same_up_to_sigma_refl. }
  unfold score. split.
  - apply (score_increase lower cfg p k); [done | done | |].
    + intros x Hx. rewrite (count_up_to_sigma _ _ _ (Hfree' x Hx) Hfront).
      apply count_app_l.
    + rewrite (count_up_to_sigma _ _ _ (Hfree' k Hk) Hfront).
      by apply count_app_self_l.
  - intros Htb.
    assert (T = []) as HT by (unfold T; by rewrite Htb).
    assert (corpus lower p = lower (text p)) as Hc
      by (unfold corpus; fold T; rewrite HT; apply app_nil_r).
    rewrite HT, app_nil_r in Hback.
    apply (score_increase lower cfg p k); [done | done | |].
    + intros x Hx. rewrite (count_up_to_sigma _ _ _ (Hfree' x Hx) Hback), Hc.
      apply count_app_r.
    + rewrite (count_up_to_sigma _ _ _ (Hfree' k Hk) Hback), Hc.
      by apply count_app_self_r.
Qed.

Lemma keyword_occurrence_raises_score_witness :
  let p := mkPageData 1 (u "Σ warning") [u "| Alert |"] 0 true in
  let score := fun q => fst (calculate_relevance_score lower_excerpt config_py q) in
  (0 <= KEYWORD_SCORE config_py
   /\ u "alert" ∈ RELEVANCE_KEYWORDS config_py
   /\ lower_excerpt (u "alert") <> []
   /\ forallb (fun k' => sigma_free (lower_excerpt k'))
              (RELEVANCE_KEYWORDS config_py) = true)
  /\ lower_excerpt (u "alert" ++ text p)
     <> lower_excerpt (u "alert") ++ lower_excerpt (text p)
  /\ score p = 4
  /\ score (set_text (u "alert" ++ text p) p) = 5
  /\ score p + KEYWORD_SCORE config_py <= score (set_text (u "alert" ++ text p) p).
Proof.
  intros p score.
  assert (0 <= KEYWORD_SCORE config_py) as Hw by (vm_compute; discriminate).
  assert (u "alert" ∈ RELEVANCE_KEYWORDS config_py) as Hk
    by (apply (bool_decide_unpack _); vm_compute; exact I).
  assert (lower_excerpt (u "alert") <> []) as Hne by (vm_compute; discriminate).
  assert (forallb (fun k' => sigma_free (lower_excerpt k'))
                  (RELEVANCE_KEYWORDS config_py) = true) as Hfree
    by (vm_compute; reflexivity).
  split; [by repeat split|].
  split; [vm_compute; discriminate|].
  split; [vm_compute; reflexivity|].
  split; [vm_compute; reflexivity|].
  exact (proj1 (keyword_occurrence_raises_score to_lower_full_excerpt
                  is_cased_excerpt is_case_ignorable_excerpt config_py p
                  (u "alert") Hw Hk Hne Hfree)).
Defined.

(** C6, counterexample.  One more 'condition' in an empty text is worth two
    points, not one, the list naming it twice; and 'eap' put inside
    'trigger' removes one occurrence while it adds one, so the score stays
    where it was. *)
Lemma keyword_occurrence_not_exact :
  let score := fun q => fst (calculate_relevance_score lower_latin1 config_py q) in
  (u "condition" ∈ RELEVANCE_KEYWORDS config_py
   /\ score (PageData_default 1 ([] ++ [])) = 0
   /\ score (PageData_default 1 ([] ++ u "condition" ++ [])) = 2)
  /\ (u "eap" ∈ RELEVANCE_KEYWORDS config_py
      /\ score (PageData_default 1 (u "trig" ++ u "ger")) = 1
      /\ score (PageData_default 1 (u "trig" ++ u "eap" ++ u "ger")) = 1)
  /\ ~ (forall (p : PageData) (k a b : str),
          k ∈ RELEVANCE_KEYWORDS config_py -> text p = a ++ b ->
          score (set_text (a ++ k ++ b) p) = score p + KEYWORD_SCORE config_py).
Proof.
  intros score.
  assert (u "condition" ∈ RELEVANCE_KEYWORDS config_py) as Hk
    by (apply (bool_decide_unpack _); vm_compute; exact I).
  split; [|split].
  - split; [exact Hk|]. split; vm_compute; reflexivity.
  - split; [apply (bool_decide_unpack _); vm_compute; exact I|].
    split; vm_compute; reflexivity.
  - intros Hall.
    specialize (Hall (PageData_default 1 []) (u "condition") [] [] Hk eq_refl).
    vm_compute in Hall. discriminate Hall.
Qed.

(** ** The selector on objects *)

Lemma Py_bind_run {A B : Type} (m : Py A) (k : A -> Py B)
    (h h' : gmap loc object) (a : A) :
  m h = Some (a, h') -> (m ≫= k) h = k a h'.
Proof. intros H. unfold mbind, Py_bind. by rewrite H. Qed.

Lemma load_list_run (h : gmap loc object) (l : loc) (items : list loc) :
  h !! l = Some (ListObj items) -> load_list l h = Some (items, h).
Proof. intros H. unfold load_list. by rewrite H. Qed.

Lemma load_page_run (h0 h : gmap loc object) (r : loc) (p : PageData) :
  h0 ⊆ h -> holds_page h0 r p -> load_page r h = Some (p, h).
Proof.
  intros Hsub Hp. unfold load_page.
  by rewrite (lookup_weaken h0 h r _ Hp Hsub).
Qed.

Lemma fresh_not_in (h0 h : gmap loc object) :
  h0 ⊆ h -> h0 !! fresh (dom h) = None.
Proof.
  intros Hsub. apply not_elem_of_dom. intros Hin.
  apply (is_fresh (dom h)). by apply (subseteq_dom h0 h Hsub).
Qed.

Lemma alloc_run (h0 h : gmap loc object) (o : object) :
  h0 ⊆ h ->
  exists l, alloc o h = Some (l, <[l := o]> h)
            /\ h0 !! l = None /\ h0 ⊆ <[l := o]> h.
Proof.
  intros Hsub. exists (fresh (dom h)). split; [done|].
  pose proof (fresh_not_in h0 h Hsub). split; [done|].
  by apply insert_subseteq_r.
Qed.

Lemma filter_pages_run (P : PageData -> Prop) `{forall p, Decision (P p)}
    (h0 h : gmap loc object) (items : list loc) (pages : list PageData) :
  h0 ⊆ h -> Forall2 (holds_page h0) items pages ->
  exists out,
    filter_pages (fun p => bool_decide (P p)) items h = Some (out, h)
    /\ Forall2 (holds_page h0) out (filter P pages).
Proof.
  intros Hsub. induction 1 as [|r p items pages Hp Hall IH].
  - by exists [].
  - destruct IH as (out & Hrun & Hout). simpl filter_pages.
    rewrite (Py_bind_run _ _ h h p) by by eapply load_page_run.
    rewrite (Py_bind_run _ _ h h out) by done.
    rewrite filter_cons. unfold mret, Py_ret.
    destruct (decide (P p)) as [HP|HP].
    + rewrite bool_decide_eq_true_2 by done. exists (r :: out). by split; [|constructor].
    + rewrite bool_decide_eq_false_2 by done. by exists out.
Qed.

Lemma sort_keys_run (key : PageData -> Z)
    (h0 h : gmap loc object) (items : list loc) (pages : list PageData) :
  h0 ⊆ h -> Forall2 (holds_page h0) items pages ->
  exists keyed,
    sort_keys key items h = Some (keyed, h)
    /\ Forall2 (fun kr p => fst kr = key p /\ holds_page h0 (snd kr) p)
               keyed pages.
Proof.
  intros Hsub. induction 1 as [|r p items pages Hp Hall IH].
  - by exists [].
  - destruct IH as (keyed & Hrun & Hout). simpl sort_keys.
    rewrite (Py_bind_run _ _ h h p) by by eapply load_page_run.
    rewrite (Py_bind_run _ _ h h keyed) by done.
    exists ((key p, r) :: keyed). split; [done|]. by constructor.
Qed.

Lemma sort_insert_Forall2 {A B : Type} (R : A -> B -> Prop)
    (key1 : A -> Z) (key2 : B -> Z) (reverse : bool)
    (x : A) (y : B) (xs : list A) (ys : list B) :
  (forall a b, R a b -> key1 a = key2 b) ->
  R x y -> Forall2 R xs ys ->
  Forall2 R (sort_insert key1 reverse x xs) (sort_insert key2 reverse y ys).
Proof.
  intros Hkey Hxy. induction 1 as [|a b xs ys Hab Hall IH]; simpl.
  - by repeat constructor.
  - rewrite (Hkey a b Hab), (Hkey x y Hxy).
    destruct (key_first reverse (key2 b) (key2 y)); by repeat constructor.
Qed.

Lemma list_sort_Forall2 {A B : Type} (R : A -> B -> Prop)
    (key1 : A -> Z) (key2 : B -> Z) (reverse : bool)
    (xs : list A) (ys : list B) :
  (forall a b, R a b -> key1 a = key2 b) ->
  Forall2 R xs ys ->
  Forall2 R (list_sort key1 reverse xs) (list_sort key2 reverse ys).
Proof.
  intros Hkey. induction 1; simpl; [constructor|].
  by apply sort_insert_Forall2.
Qed.

Lemma slice_to_Forall2 {A B : Type} (R : A -> B -> Prop) (k : Z)
    (xs : list A) (ys : list B) :
  Forall2 R xs ys -> Forall2 R (slice_to k xs) (slice_to k ys).
Proof.
  intros H. unfold slice_to. rewrite (Forall2_length _ _ _ H).
  destruct (0 <=? k); by apply Forall2_take.
Qed.

Lemma sort_in_place_run (key : PageData -> Z) (reverse : bool)
    (h0 h : gmap loc object) (l : loc) (items : list loc)
    (pages : list PageData) :
  h0 ⊆ h -> h !! l = Some (ListObj items) ->
  Forall2 (holds_page h0) items pages ->
  exists out,
    sort_in_place key reverse l h = Some (tt, <[l := ListObj out]> h)
    /\ Forall2 (holds_page h0) out (list_sort key reverse pages).
Proof.
  intros Hsub Hl Hitems.
  destruct (sort_keys_run key h0 h items pages Hsub Hitems) as (keyed & Hrun & Hk).
  exists (map snd (list_sort fst reverse keyed)). split.
  - unfold sort_in_place.
    rewrite (Py_bind_run _ _ h h items) by by apply load_list_run.
    by rewrite (Py_bind_run _ _ h h keyed) by done.
  - apply (list_sort_Forall2 _ fst key reverse) in Hk; [|by intros ? ? [? ?]].
    revert Hk. generalize (list_sort fst reverse keyed) (list_sort key reverse pages).
    induction 1 as [|? ? ? ? [_ ?]]; simpl; by constructor.
Qed.

Lemma add_pages_run (cfg : Config) (total : Z)
    (h0 h : gmap loc object) (tops : list loc) (pages : list PageData) :
  h0 ⊆ h -> Forall2 (holds_page h0) tops pages ->
  forall sel : gset Z,
    add_pages cfg total tops sel h
    = Some (fold_left (add_page cfg total) pages sel, h).
Proof.
  intros Hsub. induction 1 as [|r p tops pages Hp Hall IH]; intros sel; [done|].
  simpl add_pages.
  rewrite (Py_bind_run _ _ h h p) by by eapply load_page_run.
  apply IH.
Qed.

(** C8. A call of [select_relevant_pages] on a list object whose items are
    pages returns a list and leaves every object of the heap as it was:
    each page keeps all of its fields, [relevance_score] among them, and
    the list passed in keeps its items in their order.  The list returned
    is a new object; its items are pages of the input, those the selector
    computes from the pages' values. *)
Theorem select_relevant_pages_frame
    (cfg : Config) (h : gmap loc object) (pages_data : loc)
    (items : list loc) (pages : list PageData) :
  h !! pages_data = Some (ListObj items) ->
  Forall2 (holds_page h) items pages ->
  exists (result : loc) (h' : gmap loc object) (out : list loc),
    select_relevant_pages_obj cfg pages_data h = Some (result, h')
    /\ h ⊆ h'
    /\ h' !! pages_data = Some (ListObj items)
    /\ Forall2 (holds_page h') items pages
    /\ (forall r p, holds_page h r p ->
          holds_page h' r p /\ forall p', holds_page h' r p' ->
            relevance_score p' = relevance_score p)
    /\ h !! result = None
    /\ h' !! result = Some (ListObj out)
    /\ Forall2 (holds_page h') out (select_relevant_pages cfg pages).
Proof.
  intros Hlist Hitems.
  assert (forall h' result out sel,
            select_relevant_pages_obj cfg pages_data h = Some (result, h') ->
            h ⊆ h' -> h !! result = None ->
            h' !! result = Some (ListObj out) ->
            Forall2 (holds_page h) out sel ->
            sel = select_relevant_pages cfg pages ->
            exists (result : loc) (h' : gmap loc object) (out : list loc),
              select_relevant_pages_obj cfg pages_data h = Some (result, h')
              /\ h ⊆ h'
              /\ h' !! pages_data = Some (ListObj items)
              /\ Forall2 (holds_page h') items pages
              /\ (forall r p, holds_page h r p ->
                    holds_page h' r p /\ forall p', holds_page h' r p' ->
                      relevance_score p' = relevance_score p)
              /\ h !! result = None
              /\ h' !! result = Some (ListObj out)
              /\ Forall2 (holds_page h') out (select_relevant_pages cfg pages))
    as Hfinish.
  { intros h' result out sel Hrun Hsub Hfresh Hres Hout ->.
    exists result, h', out. repeat split; try done.
    - by apply (lookup_weaken h h').
    - eapply Forall2_impl; [exact Hitems|].
      intros r p Hp. by apply (lookup_weaken h h').
    - by apply (lookup_weaken h h').
    - intros p' Hp'. unfold holds_page in *.
      rewrite (lookup_weaken h h' r _ H Hsub) in Hp'. by injection Hp' as ->.
    - eapply Forall2_impl; [exact Hout|].
      intros r p Hp. by apply (lookup_weaken h h'). }
  unfold select_relevant_pages_obj in *.
  rewrite (Py_bind_run _ _ h h items) in * by by apply load_list_run.
  destruct (filter_pages_run (fun p => 0 < relevance_score p) h h items pages)
    as (scored & Hscored_run & Hscored); [done | done |].
  rewrite (Py_bind_run _ _ h h scored) in * by done.
  destruct (alloc_run h h (ListObj scored)) as (l1 & Hl1 & Hl1_fresh & Hsub1);
    [done|].
  rewrite (Py_bind_run _ _ _ _ _ Hl1) in *.
  set (h1 := <[l1 := ListObj scored]> h) in *.
  destruct scored as [|r0 scored'].
  - (* no page with a positive score *)
    destruct (alloc_run h h1 (ListObj [])) as (l2 & Hl2 & Hl2_fresh & Hsub2);
      [done|].
    apply (Hfinish _ l2 [] [] Hl2); try done.
    + apply lookup_insert_eq.
    + unfold select_relevant_pages. fold (scored_pages pages) in Hscored.
      by apply Forall2_nil_inv_l in Hscored as ->.
  - fold (scored_pages pages) in Hscored.
    destruct (sort_in_place_run relevance_score true h h1 l1 (r0 :: scored')
                (scored_pages pages)) as (ranked & Hsort1 & Hranked);
      [done | apply lookup_insert_eq | done |].
    fold (ranked_pages pages) in Hranked.
    rewrite (Py_bind_run _ _ _ _ _ Hsort1) in *.
    set (h2 := <[l1 := ListObj ranked]> h1) in *.
    assert (h ⊆ h2) as Hsub2 by (by apply insert_subseteq_r).
    rewrite (Py_bind_run _ _ h2 h2 ranked) in *
      by (apply load_list_run, lookup_insert_eq).
    destruct (alloc_run h h2 (ListObj (slice_to (TOP_PAGES_TO_SELECT cfg) ranked)))
      as (l3 & Hl3 & Hl3_fresh & Hsub3); [done|].
    rewrite (Py_bind_run _ _ _ _ _ Hl3) in *.
    set (h3 := <[l3 := _]> h2) in *.
    rewrite (Py_bind_run _ _ h3 h3 (slice_to (TOP_PAGES_TO_SELECT cfg) ranked)) in *
      by (apply load_list_run, lookup_insert_eq).
    assert (Forall2 (holds_page h) (slice_to (TOP_PAGES_TO_SELECT cfg) ranked)
                    (top_pages cfg pages)) as Htops
      by (by apply slice_to_Forall2).
    rewrite (Py_bind_run _ _ h3 h3 _
               (add_pages_run cfg _ h h3 _ _ Hsub3 Htops ∅)) in *.
    rewrite (Forall2_length _ _ _ Hitems) in *.
    fold (selected_page_nums cfg pages) in *.
    destruct (filter_pages_run (fun p => page_num p ∈ selected_page_nums cfg pages)
                h h3 items pages) as (selected & Hsel_run & Hselected);
      [done | done |].
    rewrite (Py_bind_run _ _ h3 h3 selected) in * by done.
    destruct (alloc_run h h3 (ListObj selected)) as (l4 & Hl4 & Hl4_fresh & Hsub4);
      [done|].
    rewrite (Py_bind_run _ _ _ _ _ Hl4) in *.
    set (h4 := <[l4 := ListObj selected]> h3) in *.
    destruct (sort_in_place_run page_num false h h4 l4 selected _ Hsub4
                (lookup_insert_eq _ _ _) Hselected) as (out & Hsort2 & Hout).
    rewrite (Py_bind_run _ _ _ _ _ Hsort2) in *.
    apply (Hfinish _ l4 out
             (list_sort page_num false
                (filter (fun p => page_num p ∈ selected_page_nums cfg pages) pages))
             eq_refl); try done.
    + by apply insert_subseteq_r.
    + apply lookup_insert_eq.
    + unfold select_relevant_pages.
      destruct (scored_pages pages); [by apply Forall2_nil_inv_r in Hscored|done].
Qed.

Lemma select_relevant_pages_frame_witness :
  let pA := mkPageData 1 (u "forecast") [] 1 false in
  let pB := mkPageData 2 [] [] 0 false in
  let h : gmap loc object :=
    <[3%positive := ListObj [1%positive; 2%positive]]>
      (<[2%positive := PageObj pB]> (<[1%positive := PageObj pA]> ∅)) in
  (h !! 3%positive = Some (ListObj [1%positive; 2%positive])
   /\ Forall2 (holds_page h) [1%positive; 2%positive] [pA; pB])
  /\ exists (result : loc) (h' : gmap loc object),
       select_relevant_pages_obj config_py 3%positive h = Some (result, h')
       /\ h ⊆ h'
       /\ holds_page h' 1%positive pA /\ holds_page h' 2%positive pB
       /\ h' !! 3%positive = Some (ListObj [1%positive; 2%positive]).
Proof.
  intros pA pB h.
  assert (h !! 3%positive = Some (ListObj [1%positive; 2%positive])) as Hlist
    by reflexivity.
  assert (Forall2 (holds_page h) [1%positive; 2%positive] [pA; pB]) as Hitems
    by (repeat constructor).
  split; [by split|].
  destruct (select_relevant_pages_frame config_py h 3%positive _ _ Hlist Hitems)
    as (result & h' & out & Hrun & Hsub & Hlist' & Hitems' & _).
  exists result, h'. split; [exact Hrun|]. split; [exact Hsub|].
  apply Forall2_cons in Hitems' as [HA Hitems'].
  apply Forall2_cons in Hitems' as [HB _].
  by repeat split.
Defined.

(** ** Extraction of tables and pages *)

Lemma fold_left_snoc_map {A B : Type} (f : A -> B) (l : list A) (acc : list B) :
  fold_left (fun acc x => acc ++ [f x]) l acc = acc ++ map f l.
Proof.
  revert acc. induction l as [|x l IH]; intros acc; simpl.
  - by rewrite app_nil_r.
  - by rewrite IH, <- app_assoc.
Qed.

Lemma pad_cells_spec (fuel width : nat) (cells : list str) :
  (width - length cells <= fuel)%nat ->
  pad_cells fuel width cells = cells ++ replicate (width - length cells) [].
Proof.
  revert cells. induction fuel as [|fuel IH]; intros cells Hfuel; simpl.
  - destruct (Nat.ltb_spec (length cells) width); [lia|].
    replace (width - length cells)%nat with 0%nat by lia.
    by rewrite app_nil_r.
  - destruct (Nat.ltb_spec (length cells) width) as [Hlt|Hge].
    + rewrite IH by (rewrite length_app; simpl; lia).
      rewrite length_app. simpl.
      replace (width - length cells)%nat
        with (S (width - (length cells + 1)))%nat by lia.
      by rewrite <- app_assoc.
    + replace (width - length cells)%nat with 0%nat by lia.
      by rewrite app_nil_r.
Qed.

Lemma data_row_cells (width : nat) (row : list (option str)) :
  take width (pad_cells width width (map cell_text row))
  = take width (map cell_text row) ++ replicate (width - length row) [].
Proof.
  rewrite pad_cells_spec by lia. rewrite length_map.
  destruct (decide (length row <= width)%nat) as [Hle|Hgt].
  - rewrite take_app_ge by (rewrite length_map; lia).
    rewrite length_map, take_replicate.
    rewrite (take_ge (map cell_text row)) by (rewrite length_map; lia).
    f_equal. f_equal. lia.
  - replace (width - length row)%nat with 0%nat by lia.
    simpl. by rewrite !app_nil_r.
Qed.

Lemma table_to_markdown_lines (header : list (option str))
    (rows : list (list (option str))) :
  table_to_markdown (Some (header :: rows))
  = join nl (markdown_row (map cell_text header)
             :: markdown_row (replicate (length header) (u "---"))
             :: map (data_row_line (length header)) rows).
Proof. unfold table_to_markdown. by rewrite fold_left_snoc_map. Qed.

(** X1. Every line of a rendered table has as many cells as the header: a
    short row is filled up with empty cells and a long one is cut, the
    padding loop having ended (no cell list is left shorter than the
    header); the table is the header line, the separator line and one line
    per data row, joined by line feeds. *)
Theorem table_to_markdown_rows (header : list (option str))
    (rows : list (list (option str))) :
  let width := length header in
  let cells := fun row : list (option str) =>
    take width (map cell_text row) ++ replicate (width - length row) [] in
  table_to_markdown (Some (header :: rows))
  = join nl (markdown_row (map cell_text header)
             :: markdown_row (replicate width (u "---"))
             :: map (fun row => markdown_row (cells row)) rows)
  /\ (forall row, length (cells row) = width)
  /\ (forall row, (length row <= width)%nat ->
        cells row = map cell_text row ++ replicate (width - length row) [])
  /\ (forall row, (width <= length row)%nat ->
        cells row = map cell_text (take width row)).
Proof.
  intros width cells. split; [|split; [|split]].
  - rewrite table_to_markdown_lines. do 3 f_equal.
    apply map_ext. intros row. unfold data_row_line, cells, width.
    by rewrite data_row_cells.
  - intros row. unfold cells.
    rewrite length_app, length_take, length_map, length_replicate. lia.
  - intros row Hle. unfold cells.
    by rewrite take_ge by (rewrite length_map; lia).
  - intros row Hge. unfold cells.
    replace (width - length row)%nat with 0%nat by lia.
    simpl. rewrite app_nil_r. symmetry. apply (fmap_take cell_text).
Qed.

Lemma markdown_row_nonempty (cells : list str) : markdown_row cells <> [].
Proof. unfold markdown_row. discriminate. Qed.

Lemma join_nonempty (sep p : str) (rest : list str) :
  p <> [] -> join sep (p :: rest) <> [].
Proof.
  intros Hp. simpl. destruct rest; [done|].
  destruct p; [done | discriminate].
Qed.

(** X16. A table renders to the empty string exactly when its
    [extract()] fails or gives no row at all; a table with a header row,
    even an empty one, renders to a non-empty string and is kept by
    [extract_page_content]. *)
Lemma table_to_markdown_nil (extracted : option (list (list (option str)))) :
  table_to_markdown extracted = [] <-> extracted = None \/ extracted = Some [].
Proof.
  split.
  - destruct extracted as [[|header rows]|]; [by right | | by left].
    rewrite table_to_markdown_lines. intros H.
    by apply join_nonempty in H; [|apply markdown_row_nonempty].
  - by intros [-> | ->].
Qed.

Lemma page_tables_filter (tbls : list (option (list (list (option str))))) :
  page_tables (Some tbls)
  = filter (fun s => s <> []) (map table_to_markdown tbls).
Proof.
  unfold page_tables.
  assert (forall acc,
    fold_left (fun tables table =>
                 match table_to_markdown table with
                 | [] => tables
                 | (_ :: _) as markdown_table => tables ++ [markdown_table]
                 end) tbls acc
    = acc ++ filter (fun s => s <> []) (map table_to_markdown tbls)) as H.
  { induction tbls as [|t tbls IH]; intros acc; simpl.
    - by rewrite app_nil_r.
    - rewrite IH, filter_cons.
      destruct (table_to_markdown t) as [|c md]; case_decide; try done.
      by rewrite <- app_assoc. }
  apply (H []).
Qed.

(** X2. A page built by [extract_page_content] has [has_tables] set exactly
    when its list of tables is not empty.  The list holds the rendered
    tables in the order found, without those that render to the empty
    string (a table without rows, or one whose [extract()] fails), so none
    of its entries is empty; it is empty when [find_tables()] raises.  The
    text and the page number are those given and the score starts at 0. *)
Theorem extract_page_content_invariant (page : raw_page) (n : Z) :
  let p := extract_page_content page n in
  (has_tables p = true <-> tables p <> [])
  /\ Forall (fun t => t <> []) (tables p)
  /\ (forall tbls, snd page = Some tbls ->
        tables p = filter (fun s => s <> []) (map table_to_markdown tbls))
  /\ (snd page = None -> tables p = [] /\ has_tables p = false)
  /\ page_num p = n /\ text p = fst page /\ relevance_score p = 0.
Proof.
  intros p. unfold p, extract_page_content. simpl.
  split; [|split; [|split; [|split]]].
  - rewrite Nat.ltb_lt. destruct (page_tables (snd page)); simpl; [|split; [done|lia]].
    split; [lia | done].
  - destruct (snd page) as [tbls|]; [|constructor].
    rewrite page_tables_filter. apply Forall_forall.
    intros t Ht. by apply list_elem_of_filter in Ht as [? _].
  - intros tbls ->. apply page_tables_filter.
  - by intros ->.
  - done.
Qed.

Lemma process_pages_nums (pages : list (option raw_page)) :
  forall (k : Z) (acc : list PageData),
  exists n : nat,
    (n <= length pages)%nat
    /\ length (process_pages k pages acc) = (length acc + n)%nat
    /\ map page_num (process_pages k pages acc)
       = map page_num acc ++ seqZ (k + 1) (Z.of_nat n)
    /\ (Forall is_Some pages -> n = length pages)
    /\ (forall p, p ∈ process_pages k pages acc ->
          p ∈ acc \/ exists page m, p = extract_page_content page m).
Proof.
  induction pages as [|[page|] pages IH]; intros k acc.
  - exists 0%nat. simpl. rewrite app_nil_r.
    repeat split; try done; try lia. intros p Hp. by left.
  - destruct (IH (k + 1) (acc ++ [extract_page_content page (k + 1)]))
      as (n & Hn & Hlen & Hnums & Hall & Hin).
    exists (S n). simpl process_pages. split; [simpl; lia|].
    split; [rewrite Hlen, length_app; simpl; lia|].
    split; [|split].
    + rewrite Hnums, map_app. simpl. rewrite <- app_assoc. simpl.
      rewrite (seqZ_cons (k + 1)) by lia. do 3 f_equal; lia.
    + intros Hsome. apply Forall_cons in Hsome as [_ Hsome].
      simpl. f_equal. by apply Hall.
    + intros p Hp. destruct (Hin p Hp) as [Hacc|?]; [|by right].
      apply elem_of_app in Hacc as [?|Hnew]; [by left|].
      apply list_elem_of_singleton in Hnew. right. eauto.
  - exists 0%nat. simpl. rewrite app_nil_r.
    repeat split; try done; try lia.
    + intros Hsome. apply Forall_cons in Hsome as [[? ?] _]. done.
    + intros p Hp. by left.
Qed.

Lemma seqZ_sorted (m : Z) (n : nat) (l : list PageData) :
  map page_num l = seqZ m (Z.of_nat n) -> StronglySorted page_num_lt l.
Proof.
  revert m l. induction n as [|n IH]; intros m l Hl.
  - destruct l; [constructor | done].
  - rewrite seqZ_cons in Hl by lia. destruct l as [|p l]; [done|].
    injection Hl as Hp Hl.
    replace (Z.pred (Z.of_nat (S n))) with (Z.of_nat n) in Hl by lia.
    constructor; [by apply (IH (Z.succ m))|].
    apply Forall_forall. intros q Hq.
    assert (page_num q ∈ seqZ (Z.succ m) (Z.of_nat n)) as Hin
      by (rewrite <- Hl; by apply (list_elem_of_fmap_2 page_num)).
    apply elem_of_seqZ in Hin. unfold page_num_lt. lia.
Qed.

Lemma process_pdf_nums (doc : option (list (option raw_page))) :
  map page_num (process_pdf doc)
  = seqZ 1 (Z.of_nat (length (process_pdf doc))).
Proof.
  destruct doc as [pages|]; [|done]. unfold process_pdf.
  destruct (process_pages_nums pages 0 []) as (n & _ & Hlen & Hnums & _).
  by rewrite Hnums, Hlen.
Qed.

Lemma process_pages_read (read : list raw_page) (tail : list (option raw_page)) :
  tail = [] \/ (exists rest, tail = None :: rest) ->
  forall (k : Z) (acc : list PageData),
    process_pages k (map Some read ++ tail) acc
    = acc ++ imap (fun i page => extract_page_content page (k + Z.of_nat i + 1)) read.
Proof.
  intros Htail. induction read as [|page read IH]; intros k acc.
  - simpl. rewrite app_nil_r. by destruct Htail as [->|[rest ->]].
  - simpl map. simpl app. cbn [process_pages]. rewrite IH, <- app_assoc. simpl.
    do 2 f_equal; [f_equal; lia|].
    apply imap_ext. intros i x _. simpl. f_equal. lia.
Qed.

(** X3. The pages [process_pdf] returns are numbered 1, 2, ..., in the
    order of the list, so the list is in strictly ascending page order and
    its length is its last page number.  A document that cannot be opened
    gives no page.  When an exception is raised while a page is read, the
    pages read before it are all returned, each as [extract_page_content]
    makes it from the page and its 1-based position, and no page after it;
    when every page is read the result is the page of every page of the
    document, as many as the document has.  Every page returned comes from
    [extract_page_content]. *)
Theorem process_pdf_numbering (doc : option (list (option raw_page))) :
  map page_num (process_pdf doc)
  = seqZ 1 (Z.of_nat (length (process_pdf doc)))
  /\ StronglySorted page_num_lt (process_pdf doc)
  /\ (doc = None -> process_pdf doc = [])
  /\ (forall pages, doc = Some pages ->
        (length (process_pdf doc) <= length pages)%nat
        /\ (Forall is_Some pages -> length (process_pdf doc) = length pages))
  /\ (forall p, p ∈ process_pdf doc ->
        exists page, p = extract_page_content page (page_num p))
  /\ (forall (read : list raw_page) (rest : list (option raw_page)),
        doc = Some (map Some read ++ None :: rest) ->
        process_pdf doc
        = imap (fun i page => extract_page_content page (Z.of_nat i + 1)) read
        /\ length (process_pdf doc) = length read)
  /\ (forall read : list raw_page,
        doc = Some (map Some read) ->
        process_pdf doc
        = imap (fun i page => extract_page_content page (Z.of_nat i + 1)) read
        /\ length (process_pdf doc) = length read).
Proof.
  split; [apply process_pdf_nums|].
  split; [eapply seqZ_sorted, process_pdf_nums|].
  split; [by intros ->|]. split; [|split; [|split]].
  - intros pages ->. unfold process_pdf.
    destruct (process_pages_nums pages 0 []) as (n & Hn & Hlen & _ & Hall & _).
    rewrite Hlen. simpl. split; [lia | done].
  - intros p Hp. destruct doc as [pages|]; [|by apply elem_of_nil in Hp].
    unfold process_pdf in Hp.
    destruct (process_pages_nums pages 0 []) as (_ & _ & _ & _ & _ & Hin).
    destruct (Hin p Hp) as [Hnil|(page & m & ->)]; [by apply elem_of_nil in Hnil|].
    by exists page.
  - intros read rest ->. unfold process_pdf.
    rewrite (process_pages_read read (None :: rest)) by (right; eauto).
    simpl. by rewrite length_imap.
  - intros read ->. unfold process_pdf.
    rewrite <- (app_nil_r (map Some read)).
    rewrite (process_pages_read read []) by by left.
    simpl. by rewrite length_imap.
Qed.

(** A document of four pages whose third page cannot be read: the first
    two pages are returned. *)
Example process_pdf_interrupted :
  process_pdf (Some [Some (u "one", Some []); Some (u "two", None); None;
                     Some (u "four", Some [])])
  = [mkPageData 1 (u "one") [] 0 false; mkPageData 2 (u "two") [] 0 false].
Proof. vm_compute. reflexivity. Qed.

(** The table of the round-trip example, a short row and a long row. *)
Example table_to_markdown_example :
  table_to_markdown (Some [[Some (u "A"); Some (u " B ")];
                           [Some (u "1"); Some (u "2")]]) = table_AB
  /\ table_to_markdown (Some [[Some (u "A"); None]; [Some (u "1")];
                              [Some (u "x"); Some (u "y"); Some (u "z")]])
     = u "| A |  |" ++ nl ++ u "| --- | --- |" ++ nl ++ u "| 1 |  |"
       ++ nl ++ u "| x | y |"
  /\ table_to_markdown (Some [[]]) = u "|  |" ++ nl ++ u "|  |".
Proof. repeat split; vm_compute; reflexivity. Qed.

(** ** Scoring a whole document *)

Lemma calculate_relevance_score_snd (lower : str -> str) (cfg : Config)
    (p : PageData) :
  snd (calculate_relevance_score lower cfg p)
  = set_relevance_score (described_score lower cfg p) p.
Proof.
  rewrite <- score_described. by unfold calculate_relevance_score.
Qed.

Lemma described_score_set_score (lower : str -> str) (cfg : Config) (v : Z)
    (p : PageData) :
  described_score lower cfg (set_relevance_score v p) = described_score lower cfg p.
Proof. done. Qed.

Lemma rescore (lower : str -> str) (cfg : Config) (p : PageData) :
  snd (calculate_relevance_score lower cfg
         (snd (calculate_relevance_score lower cfg p)))
  = snd (calculate_relevance_score lower cfg p).
Proof.
  rewrite !calculate_relevance_score_snd, described_score_set_score.
  by destruct p.
Qed.

(** X4. [score_all_pages] changes nothing but the scores: the pages keep
    their number, text, tables and [has_tables] flag, in the same order.
    Each page gets the score of its own content, whatever score it carried
    before, so scoring a document a second time changes nothing. *)
Theorem score_all_pages_idempotent (lower : str -> str) (cfg : Config)
    (pages : list PageData) :
  let scored := score_all_pages lower cfg pages in
  length scored = length pages
  /\ map page_num scored = map page_num pages
  /\ map text scored = map text pages
  /\ map tables scored = map tables pages
  /\ map has_tables scored = map has_tables pages
  /\ map relevance_score scored
     = map (fun p => fst (calculate_relevance_score lower cfg p)) pages
  /\ (forall v, score_all_pages lower cfg (map (set_relevance_score v) pages)
                = score_all_pages lower cfg (map (set_relevance_score 0) pages))
  /\ score_all_pages lower cfg scored = scored.
Proof.
  intros scored. unfold scored, score_all_pages.
  rewrite List.length_map, !List.map_map.
  repeat split; try done.
  intros v. rewrite !List.map_map. apply List.map_ext. intros p.
  by rewrite !calculate_relevance_score_snd, !described_score_set_score.
Qed.

Lemma calculate_relevance_score_obj_step
    (lower : str -> str) (cfg : Config) (h : gmap loc object) (r : loc)
    (p q : PageData) :
  holds_page h r q ->
  q = p \/ q = snd (calculate_relevance_score lower cfg p) ->
  exists score,
    calculate_relevance_score_obj lower cfg r h
    = Some (score, <[r := PageObj (snd (calculate_relevance_score lower cfg p))]> h).
Proof.
  intros Hq Hpq. rewrite (calculate_relevance_score_obj_run lower cfg h r q Hq).
  eexists. destruct Hpq as [->| ->]; [done | by rewrite rescore].
Qed.

Lemma score_each_run (lower : str -> str) (cfg : Config)
    (items : list loc) (pages : list PageData) :
  let scored := fun p => snd (calculate_relevance_score lower cfg p) in
  forall h : gmap loc object,
    Forall2 (fun r p => holds_page h r p \/ holds_page h r (scored p)) items pages ->
    exists h',
      score_each lower cfg items h = Some (tt, h')
      /\ Forall2 (fun r p => holds_page h' r (scored p)) items pages
      /\ (forall l, l ∉ items -> h' !! l = h !! l)
      /\ (forall l q, holds_page h l q ->
            holds_page h' l q \/ holds_page h' l (scored q))
      /\ (forall l items', h !! l = Some (ListObj items') ->
            h' !! l = Some (ListObj items'))
      /\ dom h' = dom h.
Proof.
  intros scored h Hall. revert h Hall.
  induction items as [|r items IH] in pages |- *; intros h Hall.
  - apply Forall2_nil_inv_l in Hall as ->. exists h.
    repeat split; try done. intros l q Hq. by left.
  - apply Forall2_cons_inv_l in Hall as (p & pages' & Hp & Hall & ->).
    assert (exists q, holds_page h r q /\ (q = p \/ q = scored p)) as (q & Hq & Hpq)
      by (destruct Hp; eauto).
    destruct (calculate_relevance_score_obj_step lower cfg h r p q Hq Hpq)
      as (score & Hstep).
    set (h1 := <[r := PageObj (scored p)]> h) in *.
    assert (forall l q', holds_page h l q' ->
              holds_page h1 l q' \/ holds_page h1 l (scored q')) as Hkeep.
    { intros l q' Hq'. unfold holds_page, h1 in *.
      destruct (decide (l = r)) as [->|Hne].
      - rewrite lookup_insert_eq. rewrite Hq in Hq'. injection Hq' as <-.
        destruct Hpq as [->| ->]; [by right|]. left. done.
      - rewrite lookup_insert_ne by done. by left. }
    destruct (IH pages' h1) as (h' & Hrun & Hdone & Hother & Hlater & Hlists & Hdom).
    { eapply Forall2_impl; [exact Hall|]. intros l q' [Hq'|Hq'].
      - by apply Hkeep.
      - destruct (Hkeep l _ Hq') as [?|H2]; [by right|].
        right. unfold scored in H2. by rewrite rescore in H2. }
    exists h'. simpl score_each.
    rewrite (Py_bind_run _ _ _ _ _ Hstep). split; [exact Hrun|].
    split; [|split; [|split; [|split]]].
    + constructor; [|done].
      destruct (Hlater r (scored p)) as [?|H2]; [apply lookup_insert_eq|done|].
      unfold scored in H2. by rewrite rescore in H2.
    + intros l Hl. apply not_elem_of_cons in Hl as [Hne Hl].
      rewrite (Hother l Hl). by apply lookup_insert_ne.
    + intros l q' Hq'. destruct (Hkeep l q' Hq') as [H1|H1].
      * by apply Hlater.
      * destruct (Hlater l _ H1) as [?|H2]; [by right|].
        right. unfold scored in H2. by rewrite rescore in H2.
    + intros l items' Hl. apply Hlists. unfold h1.
      rewrite lookup_insert_ne; [done|]. intros ->.
      unfold holds_page in Hq. congruence.
    + rewrite Hdom. unfold h1. apply dom_insert_lookup_L.
      unfold holds_page in Hq. by rewrite Hq.
Qed.

(** X5. On objects, [score_all_pages] returns the list it was given, with
    the same items in the same order.  Afterwards each page object of the
    list has in its field [relevance_score] the score that
    [calculate_relevance_score] computes for its content, and its number,
    text, tables and [has_tables] flag are those of before, also when a
    page is listed twice; objects that are not items of the list are
    untouched, and no object is created. *)
Theorem score_all_pages_in_place
    (lower : str -> str) (cfg : Config) (h : gmap loc object)
    (pages_data : loc) (items : list loc) (pages : list PageData) :
  h !! pages_data = Some (ListObj items) ->
  Forall2 (holds_page h) items pages ->
  exists h',
    score_all_pages_obj lower cfg pages_data h = Some (pages_data, h')
    /\ h' !! pages_data = Some (ListObj items)
    /\ Forall2 (holds_page h') items (score_all_pages lower cfg pages)
    /\ (forall l, l ∉ items -> h' !! l = h !! l)
    /\ dom h' = dom h
    /\ Forall2 (fun (r : loc) (p : PageData) =>
                  exists p' : PageData,
                    h' !! r = Some (PageObj p')
                    /\ relevance_score p'
                       = fst (calculate_relevance_score lower cfg p)
                    /\ page_num p' = page_num p /\ text p' = text p
                    /\ tables p' = tables p /\ has_tables p' = has_tables p)
               items pages.
Proof.
  intros Hlist Hitems.
  destruct (score_each_run lower cfg items pages h)
    as (h' & Hrun & Hdone & Hother & _ & Hlists & Hdom).
  { eapply Forall2_impl; [exact Hitems|]. intros; by left. }
  exists h'. unfold score_all_pages_obj.
  rewrite (Py_bind_run _ _ h h items) by by apply load_list_run.
  rewrite (Py_bind_run _ _ _ _ _ Hrun).
  split; [done|]. split; [by apply Hlists|].
  split; [|split; [done|split; [done|]]].
  - unfold score_all_pages. by apply Forall2_fmap_r.
  - eapply Forall2_impl; [exact Hdone|]. intros r p Hr.
    exists (snd (calculate_relevance_score lower cfg p)).
    split; [exact Hr|]. by unfold calculate_relevance_score.
Qed.

Lemma score_all_pages_in_place_witness :
  let pA := mkPageData 1 (u "Forecast and trigger") [] 0 false in
  let h : gmap loc object :=
    <[2%positive := ListObj [1%positive; 1%positive]]>
      (<[1%positive := PageObj pA]> ∅) in
  (h !! 2%positive = Some (ListObj [1%positive; 1%positive])
   /\ Forall2 (holds_page h) [1%positive; 1%positive] [pA; pA])
  /\ exists h',
       score_all_pages_obj lower_latin1 config_py 2%positive h
       = Some (2%positive, h')
       /\ holds_page h' 1%positive (set_relevance_score 2 pA)
       /\ exists p' : PageData,
            h' !! 1%positive = Some (PageObj p')
            /\ relevance_score p' = 2
            /\ page_num p' = 1 /\ text p' = u "Forecast and trigger"
            /\ tables p' = [] /\ has_tables p' = false.
Proof.
  intros pA h.
  assert (h !! 2%positive = Some (ListObj [1%positive; 1%positive])) as Hlist
    by reflexivity.
  assert (Forall2 (holds_page h) [1%positive; 1%positive] [pA; pA]) as Hitems
    by (repeat constructor).
  split; [by split|].
  destruct (score_all_pages_in_place lower_latin1 config_py h 2%positive _ _
              Hlist Hitems) as (h' & Hrun & _ & Hpages & _ & _ & Hfields).
  exists h'. split; [exact Hrun|].
  apply Forall2_cons in Hpages as [HA _]. split; [exact HA|].
  apply Forall2_cons in Hfields as [(p' & Hp' & Hs & Hn & Ht & Htb & Hh) _].
  exists p'. split; [exact Hp'|].
  split; [exact (eq_trans Hs eq_refl)|].
  split; [exact Hn|]. split; [exact Ht|]. split; [exact Htb | exact Hh].
Defined.

(** ** What the selector selects *)

Lemma elem_of_add_page (cfg : Config) (total : Z) (sel : gset Z)
    (t : PageData) (n : Z) :
  n ∈ add_page cfg total sel t <->
  n ∈ sel \/ n = page_num t
  \/ (INCLUDE_NEIGHBOR_PAGES cfg = true
      /\ ((1 < page_num t /\ n = page_num t - 1)
          \/ (page_num t < total /\ n = page_num t + 1))).
Proof.
  unfold add_page.
  destruct (INCLUDE_NEIGHBOR_PAGES cfg);
    [destruct (1 <? page_num t) eqn:H1, (page_num t <? total) eqn:H2|];
    rewrite ?Z.ltb_lt, ?Z.ltb_ge in *;
    rewrite ?elem_of_union, ?elem_of_singleton; intuition (try lia; try done).
Qed.

Lemma elem_of_fold_add_page (cfg : Config) (total : Z) (tops : list PageData) :
  forall (sel : gset Z) (n : Z),
    n ∈ fold_left (add_page cfg total) tops sel <->
    n ∈ sel
    \/ exists t, t ∈ tops
         /\ (n = page_num t
             \/ (INCLUDE_NEIGHBOR_PAGES cfg = true
                 /\ ((1 < page_num t /\ n = page_num t - 1)
                     \/ (page_num t < total /\ n = page_num t + 1)))).
Proof.
  induction tops as [|t tops IH]; intros sel n; simpl.
  - split; [by left|]. intros [?|(t & Ht & _)]; [done|].
    by apply elem_of_nil in Ht.
  - rewrite IH, elem_of_add_page. split.
    + intros [[?|Ht]|(t' & Ht' & H)]; [by left | |].
      * right. exists t. split; [by left | done].
      * right. exists t'. split; [by right | done].
    + intros [?|(t' & Ht' & H)]; [by left; left|].
      apply elem_of_cons in Ht' as [->|Ht'].
      * left. by right.
      * right. eauto.
Qed.

Lemma top_pages_nil (cfg : Config) (pages : list PageData) :
  scored_pages pages = [] -> top_pages cfg pages = [].
Proof.
  intros H. unfold top_pages, ranked_pages. rewrite H. simpl.
  destruct (slice_to_take (TOP_PAGES_TO_SELECT cfg) (@nil PageData)) as [n ->].
  apply take_nil.
Qed.

Lemma elem_of_select_relevant_pages (cfg : Config) (pages : list PageData)
    (p : PageData) :
  p ∈ select_relevant_pages cfg pages <->
  p ∈ pages /\ page_num p ∈ selected_page_nums cfg pages.
Proof.
  unfold select_relevant_pages.
  destruct (scored_pages pages) eqn:Hscored.
  - split; [by intros ?%elem_of_nil|]. intros [_ Hn].
    unfold selected_page_nums in Hn.
    rewrite (top_pages_nil cfg pages Hscored) in Hn. simpl in Hn.
    by apply not_elem_of_empty in Hn.
  - rewrite elem_of_list_sort, list_elem_of_filter. tauto.
Qed.

Lemma select_relevant_pages_submseteq (cfg : Config) (pages : list PageData) :
  select_relevant_pages cfg pages ⊆+ pages.
Proof.
  unfold select_relevant_pages.
  destruct (scored_pages pages); [apply submseteq_nil_l|].
  rewrite list_sort_perm. apply sublist_submseteq, sublist_filter; apply _.
Qed.

Lemma top_page_selected (cfg : Config) (pages : list PageData) (p : PageData) :
  p ∈ top_pages cfg pages -> p ∈ select_relevant_pages cfg pages.
Proof.
  intros Hp. apply elem_of_select_relevant_pages.
  split; [by apply (elem_of_top_pages cfg)|].
  unfold selected_page_nums. apply elem_of_fold_add_page.
  right. exists p. split; [done | by left].
Qed.

(** X6. Every top page is among the pages returned, so the selection is
    empty exactly when there is no top page.  With at least one top page
    asked for, that is exactly when no page has a positive score; with
    [TOP_PAGES_TO_SELECT = 0] the selection is empty whatever the scores. *)
Theorem top_pages_are_selected (cfg : Config) (pages : list PageData) :
  (forall p, p ∈ top_pages cfg pages -> p ∈ select_relevant_pages cfg pages)
  /\ (select_relevant_pages cfg pages = [] <-> top_pages cfg pages = [])
  /\ (1 <= TOP_PAGES_TO_SELECT cfg ->
      (select_relevant_pages cfg pages = []
       <-> forall p, p ∈ pages -> relevance_score p <= 0))
  /\ (TOP_PAGES_TO_SELECT cfg = 0 -> select_relevant_pages cfg pages = []).
Proof.
  assert (select_relevant_pages cfg pages = [] <-> top_pages cfg pages = [])
    as Hempty.
  { split; intros Hnil.
    - destruct (top_pages cfg pages) as [|t tops] eqn:Htop; [done|].
      assert (t ∈ select_relevant_pages cfg pages) as Ht
        by (apply top_page_selected; rewrite Htop; by left).
      rewrite Hnil in Ht. by apply elem_of_nil in Ht.
    - destruct (select_relevant_pages cfg pages) as [|p out] eqn:Hout; [done|].
      assert (p ∈ select_relevant_pages cfg pages) as Hp
        by (rewrite Hout; by left).
      apply elem_of_select_relevant_pages in Hp as [_ Hn].
      unfold selected_page_nums in Hn. rewrite Hnil in Hn. simpl in Hn.
      by apply not_elem_of_empty in Hn. }
  split; [apply top_page_selected|]. split; [exact Hempty|]. split.
  - intros HK. rewrite Hempty. unfold top_pages, slice_to.
    destruct (Z.leb_spec 0 (TOP_PAGES_TO_SELECT cfg)) as [_|?]; [|lia].
    split.
    + intros Hnil p Hp.
      destruct (decide (0 < relevance_score p)) as [Hpos|?]; [|lia].
      assert (p ∈ ranked_pages pages) as Hin
        by (by apply elem_of_ranked_pages).
      destruct (ranked_pages pages) as [|q l]; [by apply elem_of_nil in Hin|].
      destruct (Z.to_nat (TOP_PAGES_TO_SELECT cfg)) eqn:HKn; [lia | done].
    + intros Hall. unfold ranked_pages.
      rewrite (scored_pages_nil pages Hall). simpl. apply take_nil.
  - intros HK. apply Hempty. unfold top_pages, slice_to. by rewrite HK.
Qed.

(** X7. On pages whose numbers lie between 1 and the number of pages, the
    pages returned are exactly the pages of the input whose number is the
    number of a top page or, when neighbours are included, next to it. *)
Theorem selected_pages_characterised (cfg : Config) (pages : list PageData) :
  (forall p, p ∈ pages -> 1 <= page_num p <= Z.of_nat (length pages)) ->
  forall p,
    p ∈ select_relevant_pages cfg pages <->
    p ∈ pages
    /\ exists t, t ∈ top_pages cfg pages
         /\ if INCLUDE_NEIGHBOR_PAGES cfg
            then page_num t - 1 <= page_num p <= page_num t + 1
            else page_num p = page_num t.
Proof.
  intros Hrange p. rewrite elem_of_select_relevant_pages.
  unfold selected_page_nums. rewrite elem_of_fold_add_page.
  split.
  - intros [Hp [Hn|(t & Ht & Hn)]]; [by apply not_elem_of_empty in Hn|].
    split; [done|]. exists t. split; [done|].
    destruct (INCLUDE_NEIGHBOR_PAGES cfg); [lia|].
    destruct Hn as [?|[? _]]; done.
  - intros [Hp (t & Ht & Hn)]. split; [done|]. right. exists t.
    split; [done|]. specialize (Hrange p Hp).
    destruct (INCLUDE_NEIGHBOR_PAGES cfg); [|by left].
    destruct (decide (page_num p = page_num t)); [by left|]. right.
    split; [done|]. lia.
Qed.

Lemma selected_pages_characterised_witness :
  let pages := [mkPageData 1 [] [] 0 false; mkPageData 2 [] [] 7 false;
                mkPageData 3 [] [] 0 false; mkPageData 4 [] [] 0 false] in
  (forall p, p ∈ pages -> 1 <= page_num p <= Z.of_nat (length pages))
  /\ (mkPageData 3 [] [] 0 false ∈ select_relevant_pages config_py pages
      <-> mkPageData 3 [] [] 0 false ∈ pages
          /\ exists t, t ∈ top_pages config_py pages
               /\ page_num t - 1 <= 3 <= page_num t + 1).
Proof.
  intros pages.
  assert (forall p, p ∈ pages -> 1 <= page_num p <= Z.of_nat (length pages))
    as Hrange.
  { intros p Hp. unfold pages in Hp.
    rewrite !elem_of_cons, elem_of_nil in Hp.
    destruct Hp as [->|[->|[->|[->|[]]]]]; simpl; lia. }
  split; [exact Hrange|].
  exact (selected_pages_characterised config_py pages Hrange
           (mkPageData 3 [] [] 0 false)).
Defined.

Lemma size_add_page (cfg : Config) (total : Z) (sel : gset Z) (t : PageData) :
  (size (add_page cfg total sel t)
   <= size sel + (if INCLUDE_NEIGHBOR_PAGES cfg then 3 else 1))%nat.
Proof.
  assert (forall (X : gset Z) (x : Z), (size (X ∪ {[x]}) <= size X + 1)%nat)
    as Hone.
  { intros X x. rewrite size_union_alt.
    assert (({[x]} : gset Z) ∖ X ⊆ {[x]}) as Hsub
      by (intros y Hy; by apply elem_of_difference in Hy as [? _]).
    apply subseteq_size in Hsub. rewrite size_singleton in Hsub. lia. }
  unfold add_page.
  pose proof (Hone sel (page_num t)) as H0.
  destruct (INCLUDE_NEIGHBOR_PAGES cfg); [|done].
  pose proof (Hone (sel ∪ {[page_num t]}) (page_num t - 1)) as H1.
  destruct (1 <? page_num t).
  - pose proof (Hone (sel ∪ {[page_num t]} ∪ {[page_num t - 1]}) (page_num t + 1)).
    destruct (page_num t <? total); lia.
  - pose proof (Hone (sel ∪ {[page_num t]}) (page_num t + 1)).
    destruct (page_num t <? total); lia.
Qed.

Lemma size_fold_add_page (cfg : Config) (total : Z) (tops : list PageData) :
  forall sel : gset Z,
    (size (fold_left (add_page cfg total) tops sel)
     <= size sel + (if INCLUDE_NEIGHBOR_PAGES cfg then 3 else 1) * length tops)%nat.
Proof.
  induction tops as [|t tops IH]; intros sel; simpl; [lia|].
  pose proof (IH (add_page cfg total sel t)).
  pose proof (size_add_page cfg total sel t). lia.
Qed.

Lemma submseteq_NoDup_l {A : Type} (l k : list A) :
  l ⊆+ k -> NoDup k -> NoDup l.
Proof.
  intros (k' & Hk)%submseteq_Permutation Hnd. rewrite Hk in Hnd.
  by apply NoDup_app in Hnd as [? _].
Qed.

(** X8. The selection is never longer than the input, and on pages with
    pairwise different numbers it holds at most [TOP_PAGES_TO_SELECT] pages,
    or three times as many when neighbours are included. *)
Theorem selection_size_bound (cfg : Config) (pages : list PageData) :
  (length (select_relevant_pages cfg pages) <= length pages)%nat
  /\ (NoDup (map page_num pages) -> 0 <= TOP_PAGES_TO_SELECT cfg ->
      Z.of_nat (length (select_relevant_pages cfg pages))
      <= (if INCLUDE_NEIGHBOR_PAGES cfg then 3 else 1) * TOP_PAGES_TO_SELECT cfg).
Proof.
  split; [apply submseteq_length, select_relevant_pages_submseteq|].
  intros Hnd HK.
  assert (length (select_relevant_pages cfg pages)
          <= size (selected_page_nums cfg pages))%nat as Hsize.
  { assert (NoDup (map page_num (select_relevant_pages cfg pages))) as Hnd'.
    { apply (submseteq_NoDup_l _ (map page_num pages)); [|done].
      apply (fmap_submseteq page_num), select_relevant_pages_submseteq. }
    rewrite <- (List.length_map page_num).
    unfold size, set_size. simpl.
    apply submseteq_length, NoDup_submseteq; [done|].
    intros n Hn. apply elem_of_elements.
    apply (list_elem_of_fmap_1 page_num) in Hn as (p & -> & Hp).
    by apply elem_of_select_relevant_pages in Hp as [_ ?]. }
  pose proof (size_fold_add_page cfg (Z.of_nat (length pages))
                (top_pages cfg pages) ∅) as Hfold.
  fold (selected_page_nums cfg pages) in Hfold.
  rewrite size_empty in Hfold.
  assert (Z.of_nat (length (top_pages cfg pages)) <= TOP_PAGES_TO_SELECT cfg)
    as Htop.
  { unfold top_pages, slice_to.
    destruct (Z.leb_spec 0 (TOP_PAGES_TO_SELECT cfg)); [|lia].
    rewrite length_take. lia. }
  destruct (INCLUDE_NEIGHBOR_PAGES cfg); lia.
Qed.

(** X9. When no more than [TOP_PAGES_TO_SELECT] pages have a positive
    score, every page with a positive score is returned. *)
Theorem all_scored_pages_selected (cfg : Config) (pages : list PageData) :
  Z.of_nat (length (scored_pages pages)) <= TOP_PAGES_TO_SELECT cfg ->
  forall p, p ∈ pages -> 0 < relevance_score p ->
    p ∈ select_relevant_pages cfg pages.
Proof.
  intros HK p Hp Hpos. apply top_page_selected.
  unfold top_pages, slice_to.
  destruct (Z.leb_spec 0 (TOP_PAGES_TO_SELECT cfg)); [|lia].
  rewrite take_ge.
  - by apply elem_of_ranked_pages.
  - unfold ranked_pages.
    rewrite (Permutation_length (list_sort_perm relevance_score true _)). lia.
Qed.

Lemma all_scored_pages_selected_witness :
  let pages := [mkPageData 1 [] [] 2 false; mkPageData 2 [] [] 0 false;
                mkPageData 3 [] [] 0 false; mkPageData 4 [] [] 5 false] in
  Z.of_nat (length (scored_pages pages)) <= TOP_PAGES_TO_SELECT config_py
  /\ mkPageData 1 [] [] 2 false ∈ select_relevant_pages config_py pages.
Proof.
  intros pages.
  assert (Z.of_nat (length (scored_pages pages)) <= TOP_PAGES_TO_SELECT config_py)
    as HK by (vm_compute; discriminate).
  split; [exact HK|].
  apply (all_scored_pages_selected config_py pages HK).
  - left.
  - simpl. lia.
Defined.

(** ** Payloads and the preparation of a document *)

Lemma lstrip_snoc (c : N) (l : str) :
  is_whitespace c = false -> exists l', lstrip (l ++ [c]) = l' ++ [c].
Proof.
  intros Hc. induction l as [|x l [l' IH]]; simpl.
  - rewrite Hc. by exists [].
  - destruct (is_whitespace x); [by exists l' | by exists (x :: l)].
Qed.

Lemma rstrip_cons (c : N) (s : str) :
  is_whitespace c = false -> exists r, rstrip (c :: s) = c :: r.
Proof.
  intros Hc. unfold rstrip. rewrite reverse_cons.
  destruct (lstrip_snoc c (reverse s) Hc) as [l' ->].
  rewrite reverse_snoc. eauto.
Qed.

Lemma page_block_head (p : PageData) :
  exists rest, page_block p = 10%N :: 45%N :: rest.
Proof. unfold page_block, page_header, nl. eexists. reflexivity. Qed.

Lemma construct_payload_app (l1 l2 : list PageData) :
  construct_payload (l1 ++ l2) = construct_payload l1 ++ construct_payload l2.
Proof. by rewrite !construct_payload_blocks, map_app, concat_app. Qed.

Lemma construct_payload_strip (pages : list PageData) :
  pages <> [] -> strip (construct_payload pages) <> [].
Proof.
  intros Hne. destruct pages as [|p pages]; [done|].
  rewrite construct_payload_blocks.
  change (map page_block (p :: pages))
    with (page_block p :: map page_block pages).
  rewrite concat_cons.
  destruct (page_block_head p) as [rest ->].
  generalize (concat (map page_block pages)). intros tail.
  destruct (rstrip_cons 45 (rest ++ tail) eq_refl) as [r Hr].
  change (strip ((10%N :: 45%N :: rest) ++ tail))
    with (rstrip (45%N :: (rest ++ tail))).
  by rewrite Hr.
Qed.

(** X10. The payload of a list of pages is the payload of its first part
    followed by the payload of the rest.  The payload of a non-empty list
    is never blank: something other than white space is left of it after
    trimming, so it is not the empty string either. *)
Theorem construct_payload_composes (l1 l2 : list PageData) :
  construct_payload (l1 ++ l2) = construct_payload l1 ++ construct_payload l2
  /\ (l1 <> [] -> strip (construct_payload l1) <> []
                  /\ construct_payload l1 <> []).
Proof.
  split; [apply construct_payload_app|]. intros Hne.
  split; [by apply construct_payload_strip|].
  intros Hnil. by apply (construct_payload_strip l1 Hne); rewrite Hnil.
Qed.

Lemma score_all_pages_nil_inv (lower : str -> str) (cfg : Config)
    (pages : list PageData) :
  score_all_pages lower cfg pages = [] -> pages = [].
Proof. by destruct pages. Qed.

Ltac result_lookup :=
  repeat (rewrite lookup_insert_eq || rewrite lookup_insert_ne by done
          || rewrite lookup_empty).

(** X11. [prepare_pdf_payload] ends in one of three ways.  Without pages
    it returns no payload and the status "error"; with pages but an empty
    selection, no payload and the status "no_matches"; otherwise the
    payload built from the selection, the status "success", no error, and
    the two page counts, the selection counting at least one page and no
    more than the document has.  The error "Failed to construct payload"
    is never reported. *)
Theorem prepare_pdf_payload_outcomes
    (unicode_decimal : N -> option Z) (lower : str -> str) (cfg : Config)
    (name : str) (doc : option (list (option raw_page)))
    (metadata : option (gmap Z str)) :
  let pages := process_pdf doc in
  let selected := select_relevant_pages cfg (score_all_pages lower cfg pages) in
  let out := prepare_pdf_payload unicode_decimal lower cfg name doc metadata in
  (pages = [] ->
     fst out = None
     /\ snd out !! "status" = Some (VStr (u "error"))
     /\ snd out !! "error" = Some (VStr (u "Failed to extract pages from PDF"))
     /\ snd out !! "pages_analyzed" = Some (VInt 0))
  /\ (pages <> [] -> selected = [] ->
     fst out = None
     /\ snd out !! "status" = Some (VStr (u "no_matches"))
     /\ snd out !! "error" = Some (VStr (u "No pages matched the relevance criteria"))
     /\ snd out !! "pages_analyzed" = Some (VInt (Z.of_nat (length pages)))
     /\ snd out !! "pages_selected" = Some (VInt 0))
  /\ (selected <> [] ->
     fst out = Some (construct_payload selected)
     /\ snd out !! "status" = Some (VStr (u "success"))
     /\ snd out !! "error" = None
     /\ snd out !! "pages_analyzed" = Some (VInt (Z.of_nat (length pages)))
     /\ snd out !! "pages_selected" = Some (VInt (Z.of_nat (length selected)))
     /\ (1 <= length selected <= length pages)%nat)
  /\ snd out !! "error" <> Some (VStr (u "Failed to construct payload")).
Proof.
  intros pages selected out. unfold out, prepare_pdf_payload.
  fold pages. destruct pages as [|p0 pages'] eqn:Hpages.
  { subst selected.
    cbn [fst snd score_all_pages map select_relevant_pages scored_pages].
    split; [intros _|split; [intros H; by destruct H|split; [intros H; by destruct H|]]];
      result_lookup; [done | intros [=]]. }
  fold selected.
  assert (length selected <= length (p0 :: pages'))%nat as Hlen.
  { unfold selected.
    etrans; [apply submseteq_length, select_relevant_pages_submseteq|].
    unfold score_all_pages. by rewrite List.length_map. }
  destruct selected as [|s0 selected'] eqn:Hsel.
  { cbn [fst snd].
    split; [intros [=]|split; [intros _ _|split; [intros H; by destruct H|]]];
      result_lookup; [done | intros [=]]. }
  pose proof (construct_payload_strip (s0 :: selected') ltac:(done)) as Hpayload.
  destruct (construct_payload (s0 :: selected')) as [|c payload] eqn:Hcp;
    [done|].
  cbn [fst snd].
  split; [intros [=]|split; [intros _ [=]|split; [intros _|]]];
    result_lookup; [|done].
  repeat split; try done. cbn [length] in *. lia.
Qed.

(** X12. The result of [prepare_pdf_payload] always names the file and the
    document id read from the file name.  The document name is the entry of
    the metadata under that id; it is left empty when no metadata is given,
    when the file name has no id, when the metadata has no entry for the id,
    and also when the id is 0, whatever the metadata holds for 0.  The
    language, the trigger mechanism and the triggers are left as they
    start. *)
Theorem prepare_pdf_payload_document
    (unicode_decimal : N -> option Z) (lower : str -> str) (cfg : Config)
    (name : str) (doc : option (list (option raw_page)))
    (metadata : option (gmap Z str)) :
  let result :=
    snd (prepare_pdf_payload unicode_decimal lower cfg name doc metadata) in
  result !! "file" = Some (VStr name)
  /\ result !! "document_id"
     = Some (value_of_option VInt (extract_document_id unicode_decimal name))
  /\ result !! "document_name"
     = Some (match metadata, extract_document_id unicode_decimal name with
             | Some m, Some n =>
               if n =? 0 then VNone else value_of_option VStr (m !! n)
             | _, _ => VNone
             end)
  /\ result !! "document_language" = Some VNone
  /\ result !! "trigger_mechanism" = Some VNone
  /\ result !! "triggers" = Some VEmptyDict.
Proof.
  intros result. unfold result, prepare_pdf_payload.
  assert (match metadata, extract_document_id unicode_decimal name with
          | Some m, Some n =>
            if bool_decide (m <> ∅) && negb (n =? 0) then m !! n else None
          | _, _ => None
          end
          = match metadata, extract_document_id unicode_decimal name with
            | Some m, Some n => if n =? 0 then None else m !! n
            | _, _ => None
            end) as ->.
  { destruct metadata as [m|], (extract_document_id unicode_decimal name) as [n|];
      try done.
    destruct (decide (m = ∅)) as [->|Hne].
    - rewrite bool_decide_eq_false_2 by (intros H; by apply H).
      rewrite lookup_empty. by destruct (n =? 0).
    - rewrite bool_decide_eq_true_2 by done. by destruct (n =? 0). }
  assert (value_of_option VStr
            match metadata, extract_document_id unicode_decimal name with
            | Some m, Some n => if n =? 0 then None else m !! n
            | _, _ => None
            end
          = match metadata, extract_document_id unicode_decimal name with
            | Some m, Some n =>
              if n =? 0 then VNone else value_of_option VStr (m !! n)
            | _, _ => VNone
            end) as ->.
  { destruct metadata as [m|], (extract_document_id unicode_decimal name) as [n|];
      try done. by destruct (n =? 0). }
  destruct (process_pdf doc) as [|p0 pages'];
    [cbn [snd]; repeat split; by result_lookup|].
  destruct (select_relevant_pages cfg _) as [|s0 selected'];
    [cbn [snd]; repeat split; by result_lookup|].
  destruct (construct_payload _);
    cbn [snd]; repeat split; by result_lookup.
Qed.

Lemma extract_page_content_shape (page : raw_page) (n : Z) :
  has_tables (extract_page_content page n) = true
  <-> tables (extract_page_content page n) <> [].
Proof.
  unfold extract_page_content. simpl. rewrite Nat.ltb_lt.
  destruct (page_tables (snd page)); simpl; [|split; [done|lia]].
  split; [lia | done].
Qed.

Lemma process_pdf_nums_elem (doc : option (list (option raw_page)))
    (p : PageData) :
  p ∈ process_pdf doc -> exists page, p = extract_page_content page (page_num p).
Proof.
  intros Hp. destruct doc as [pages|]; [|by apply elem_of_nil in Hp].
  unfold process_pdf in Hp.
  destruct (process_pages_nums pages 0 []) as (_ & _ & _ & _ & _ & Hin).
  destruct (Hin p Hp) as [Hnil|(page & m & ->)]; [by apply elem_of_nil in Hnil|].
  by exists page.
Qed.

Lemma elem_of_score_all_pages (lower : str -> str) (cfg : Config)
    (pages : list PageData) (p : PageData) :
  p ∈ score_all_pages lower cfg pages ->
  exists q, q ∈ pages /\ p = snd (calculate_relevance_score lower cfg q).
Proof.
  unfold score_all_pages. intros Hp.
  apply (list_elem_of_fmap_1 (fun p => snd (calculate_relevance_score lower cfg p)))
    in Hp as (q & -> & Hq).
  eauto.
Qed.

(** X13. For any document, the pages that go from [process_pdf] through
    [score_all_pages] to [select_relevant_pages] come out in strictly
    ascending page order, with numbers between 1 and the number of pages
    extracted.  Each of them is an extracted page with its computed score,
    with [has_tables] set exactly when it has tables. *)
Theorem pipeline_selection (lower : str -> str) (cfg : Config)
    (doc : option (list (option raw_page))) :
  let pages := score_all_pages lower cfg (process_pdf doc) in
  let selected := select_relevant_pages cfg pages in
  map page_num pages = seqZ 1 (Z.of_nat (length pages))
  /\ StronglySorted page_num_lt pages
  /\ StronglySorted page_num_lt selected
  /\ (forall p, p ∈ selected ->
        1 <= page_num p <= Z.of_nat (length (process_pdf doc))
        /\ (has_tables p = true <-> tables p <> [])
        /\ relevance_score p = fst (calculate_relevance_score lower cfg p)
        /\ exists page,
             p = snd (calculate_relevance_score lower cfg
                        (extract_page_content page (page_num p)))).
Proof.
  intros pages selected.
  assert (map page_num pages = seqZ 1 (Z.of_nat (length pages))) as Hnums.
  { unfold pages, score_all_pages.
    rewrite List.length_map, List.map_map. apply process_pdf_nums. }
  assert (length pages = length (process_pdf doc)) as Hlen
    by (unfold pages, score_all_pages; by rewrite List.length_map).
  split; [done|]. split; [by eapply seqZ_sorted|]. split.
  - unfold selected, select_relevant_pages.
    destruct (scored_pages pages); [constructor|].
    apply selected_pages_sorted. rewrite Hnums. apply NoDup_seqZ.
  - intros p Hp.
    assert (p ∈ pages) as Hin
      by (eapply elem_of_submseteq; [exact Hp|apply select_relevant_pages_submseteq]).
    assert (page_num p ∈ seqZ 1 (Z.of_nat (length pages))) as Hn
      by (rewrite <- Hnums; by apply (list_elem_of_fmap_2 page_num)).
    apply elem_of_seqZ in Hn.
    apply elem_of_score_all_pages in Hin as (q & Hq & ->).
    destruct (process_pdf_nums_elem doc q Hq) as [page Hpage].
    rewrite calculate_relevance_score_snd in *.
    split; [simpl in *; lia|]. split; [|split].
    + rewrite Hpage. apply (extract_page_content_shape page (page_num q)).
    + by rewrite score_described.
    + exists page. cbn [page_num set_relevance_score].
      by rewrite <- Hpage, calculate_relevance_score_snd.
Qed.

(** ** Document ids and file names *)

Lemma uint_digits_range (d : Decimal.uint) :
  Forall (fun k => 0 <= k <= 9) (uint_digits d).
Proof. induction d; simpl; constructor; (lia || done). Qed.

Lemma string_of_uint_digits (d : Decimal.uint) :
  map N_of_ascii (list_ascii_of_string (NilEmpty.string_of_uint d))
  = map (fun k => Z.to_N (k + 48)) (uint_digits d).
Proof.
  induction d; [done|..];
    cbn [NilEmpty.string_of_uint list_ascii_of_string map uint_digits];
    rewrite IHd; reflexivity.
Qed.

Lemma fold_digits_acc (d : Decimal.uint) (acc : positive) :
  fold_left (fun a k => a * 10 + k) (uint_digits d) (Z.pos acc)
  = Z.pos (Pos.of_uint_acc d acc).
Proof.
  revert acc. induction d; [done|..];
    intros acc; cbn [uint_digits fold_left Pos.of_uint_acc];
    rewrite <- IHd; f_equal; lia.
Qed.

Lemma fold_digits (d : Decimal.uint) :
  fold_left (fun a k => a * 10 + k) (uint_digits d) 0 = Z.of_uint d.
Proof.
  unfold Z.of_uint.
  induction d; [done | exact IHd | ..];
    cbn [uint_digits fold_left Pos.of_uint]; apply fold_digits_acc.
Qed.

Lemma str_of_int_digits (n : Z) :
  0 <= n ->
  exists d, d <> Decimal.Nil /\ Z.of_uint d = n
            /\ str_of_int n = map (fun k => Z.to_N (k + 48)) (uint_digits d).
Proof.
  intros Hn. destruct n as [|p|p]; [| |lia].
  - exists (Decimal.D0 Decimal.Nil). by repeat split.
  - exists (Pos.to_uint p).
    pose proof (Unsigned.to_uint_nonnil p) as Hnil.
    split; [done|]. split.
    + unfold Z.of_uint. by rewrite Unsigned.of_to.
    + unfold str_of_int. cbn [Z.to_int NilZero.string_of_int].
      rewrite <- string_of_uint_digits.
      unfold NilZero.string_of_uint. by destruct (Pos.to_uint p).
Qed.

Section DocumentId.
Variable unicode_decimal : N -> option Z.

Lemma decimal_ascii_digit (k : Z) :
  0 <= k <= 9 -> decimal unicode_decimal (Z.to_N (k + 48)) = Some k.
Proof.
  intros Hk. unfold decimal.
  destruct (N.leb_spec 48 (Z.to_N (k + 48))); [|lia].
  destruct (N.leb_spec (Z.to_N (k + 48)) 57); [|lia].
  simpl. f_equal. lia.
Qed.

Lemma leading_digits_spec (s : str) :
  exists cs,
    s = cs ++ snd (leading_digits unicode_decimal s)
    /\ Forall2 (fun c d => decimal unicode_decimal c = Some d)
               cs (fst (leading_digits unicode_decimal s)).
Proof.
  induction s as [|c s (cs & Hs & Hcs)]; [by exists []|].
  simpl. destruct (decimal unicode_decimal c) as [d|] eqn:Hc.
  - destruct (leading_digits unicode_decimal s) as [ds rest]. simpl in *.
    exists (c :: cs). split; [by rewrite Hs at 1 | by constructor].
  - by exists [].
Qed.

Lemma leading_digits_app (cs : str) (ds : list Z) (c : N) (rest : str) :
  Forall2 (fun c d => decimal unicode_decimal c = Some d) cs ds ->
  decimal unicode_decimal c = None ->
  leading_digits unicode_decimal (cs ++ c :: rest) = (ds, c :: rest).
Proof.
  intros Hcs Hc. induction Hcs as [|c' d cs ds Hd Hcs IH]; simpl.
  - by rewrite Hc.
  - by rewrite Hd, IH.
Qed.

Lemma extract_document_id_spec_digits (cs : str) (ds : list Z) (rest : str)
    (n : Z) :
  cs <> [] ->
  Forall2 (fun c d => decimal unicode_decimal c = Some d) cs ds ->
  n = int_of_digits ds ->
  extract_document_id unicode_decimal (cs ++ u "_" ++ rest) = Some n.
Proof.
  intros Hne Hcs ->. unfold extract_document_id.
  change (u "_" ++ rest) with (95%N :: rest).
  rewrite (leading_digits_app cs ds 95 rest Hcs eq_refl).
  destruct ds as [|d ds]; [|done].
  apply Forall2_nil_inv_r in Hcs. done.
Qed.

(** X14. [extract_document_id] finds an id exactly in the file names that
    begin with one or more decimal digits followed by an underscore, and
    the id is the number the digits spell. *)
Theorem extract_document_id_spec (filename : str) (n : Z) :
  extract_document_id unicode_decimal filename = Some n <->
  exists (cs : str) (ds : list Z) (rest : str),
    filename = cs ++ u "_" ++ rest
    /\ cs <> []
    /\ Forall2 (fun c d => decimal unicode_decimal c = Some d) cs ds
    /\ n = int_of_digits ds.
Proof.
  unfold extract_document_id. split.
  - destruct (leading_digits_spec filename) as (cs & Hs & Hcs).
    destruct (leading_digits unicode_decimal filename) as [ds rest].
    simpl in *. destruct ds as [|d ds]; [done|].
    destruct rest as [|c rest]; [done|].
    destruct (N.eqb_spec c 95) as [->|]; [|done]. intros [= <-].
    exists cs, (d :: ds), rest. repeat split; try done.
    intros ->. by apply Forall2_nil_inv_l in Hcs.
  - intros (cs & ds & rest & -> & Hne & Hcs & ->).
    by apply (extract_document_id_spec_digits cs ds rest).
Qed.

Lemma extract_document_id_str_of_int (id : Z) (rest : str) :
  0 <= id ->
  extract_document_id unicode_decimal (str_of_int id ++ u "_" ++ rest) = Some id.
Proof.
  intros Hid. destruct (str_of_int_digits id Hid) as (d & Hnil & Hval & Hstr).
  apply extract_document_id_spec_digits with (ds := uint_digits d).
  - rewrite Hstr. by destruct d.
  - rewrite Hstr. apply Forall2_fmap_l, Forall_Forall2_diag.
    eapply Forall_impl; [apply uint_digits_range|].
    intros k Hk. by apply decimal_ascii_digit.
  - unfold int_of_digits. by rewrite fold_digits.
Qed.

(** X15. A document saved by [download_documents] under a non-negative id
    is given its id back by [extract_document_id]: the name starts with the
    id and an underscore, whether it is built from the file name of the URL
    or from the cleaned document name, and with or without the [.pdf]
    added at the end. *)
Theorem extract_document_id_round_trip
    (lower : str -> str) (isalnum : N -> bool)
    (id : Z) (original_filename doc_name rest : str) :
  0 <= id ->
  extract_document_id unicode_decimal (str_of_int id ++ u "_" ++ rest) = Some id
  /\ extract_document_id unicode_decimal
       (safe_filename lower isalnum id original_filename doc_name) = Some id.
Proof.
  intros Hid. split; [by apply extract_document_id_str_of_int|].
  unfold safe_filename.
  destruct original_filename as [|c name];
    match goal with
    | |- context [negb ?b] => destruct b
    end; cbn [negb]; rewrite <- ?app_assoc;
    by apply extract_document_id_str_of_int.
Qed.
End DocumentId.

Lemma extract_document_id_round_trip_witness :
  let isalnum := fun c : N =>
    ((48 <=? c) && (c <=? 57) || (65 <=? c) && (c <=? 90)
     || (97 <=? c) && (c <=? 122))%N in
  0 <= 16389
  /\ extract_document_id (fun _ => None) (u "16389_EAP2025HN05-Summary.pdf")
     = Some 16389
  /\ safe_filename lower_latin1 isalnum 16389 (u "EAP2025HN05-Summary.PDF") []
     = u "16389_EAP2025HN05-Summary.PDF"
  /\ safe_filename lower_latin1 isalnum 16389 [] (u "Plan d'action")
     = u "16389_Plan d_action.pdf".
Proof.
  intros isalnum.
  assert (0 <= 16389) as Hid by lia.
  split; [exact Hid|].
  split; [|split; vm_compute; reflexivity].
  exact (proj1 (extract_document_id_round_trip (fun _ => None) lower_latin1
                  isalnum 16389 [] []
                  (u "EAP2025HN05-Summary.pdf") Hid)).
Defined.

(** ** Fetching the list of documents *)

Lemma fetch_pages_paged {D : Type} (docs : list D) (fuel : nat) :
  forall i : nat,
    (50 * i < length docs)%nat \/ i = 0%nat ->
    (length docs <= 50 * (i + fuel))%nat ->
    (1 <= fuel)%nat ->
    fetch_pages fuel (paged_api docs) (Z.of_nat (50 * i)) (take (50 * i) docs)
    = Fetched docs.
Proof.
  induction fuel as [|fuel IH]; intros i Hlo Hhi Hfuel; [lia|].
  cbn [fetch_pages]. unfold paged_api at 1. rewrite Nat2Z.id.
  destruct (take 50 (drop (50 * i) docs)) as [|d results] eqn:Hpage.
  - apply take_nil_inv in Hpage as [?|Hdrop]; [done|].
    apply (f_equal length) in Hdrop. rewrite length_drop in Hdrop. simpl in Hdrop.
    by rewrite take_ge by lia.
  - rewrite <- Hpage, take_take_drop.
    destruct (Z.geb_spec (Z.of_nat (50 * i) + 50) (Z.of_nat (length docs)))
      as [Hlast|Hmore].
    + by rewrite take_ge by lia.
    + replace (Z.of_nat (50 * i) + 50) with (Z.of_nat (50 * S i)) by lia.
      replace (50 * i + 50)%nat with (50 * S i)%nat by lia.
      apply IH; lia.
Qed.

Lemma fetch_pages_running {D : Type} (docs : list D) (fuel : nat) :
  forall (i : nat) (acc : list D),
    (50 * (i + fuel) < length docs)%nat ->
    fetch_pages fuel (paged_api docs) (Z.of_nat (50 * i)) acc = FetchRunning.
Proof.
  induction fuel as [|fuel IH]; intros i acc Hmore; [done|].
  cbn [fetch_pages]. unfold paged_api at 1. rewrite Nat2Z.id.
  destruct (take 50 (drop (50 * i) docs)) as [|d results] eqn:Hpage.
  - apply take_nil_inv in Hpage as [?|Hdrop]; [done|].
    apply (f_equal length) in Hdrop. rewrite length_drop in Hdrop. simpl in Hdrop.
    lia.
  - destruct (Z.geb_spec (Z.of_nat (50 * i) + 50) (Z.of_nat (length docs)))
      as [Hlast|Hnext]; [lia|].
    replace (Z.of_nat (50 * i) + 50) with (Z.of_nat (50 * S i)) by lia.
    apply IH. lia.
Qed.

(** X17. Against an API that serves a list of documents by limit and
    offset, [fetch_all_appeal_documents] returns the whole list, every
    document once and in order, with one request per started block of fifty
    documents (one request for an empty list): that many requests are
    enough, so 2 for 100 documents and 1 for 50, and with fewer the loop is
    still running.  Without a token it raises before any request. *)
Theorem fetch_all_appeal_documents_complete {D : Type}
    (docs : list D) (token : str) (fuel : nat) :
  token <> [] ->
  ((1 <= fuel)%nat -> (length docs <= 50 * fuel)%nat ->
   fetch_all_appeal_documents (Some token) fuel (paged_api docs) = Fetched docs)
  /\ (fuel = 0%nat \/ (50 * fuel < length docs)%nat ->
      fetch_all_appeal_documents (Some token) fuel (paged_api docs) = FetchRunning)
  /\ fetch_all_appeal_documents None fuel (paged_api docs) = FetchRaised
  /\ fetch_all_appeal_documents (Some []) fuel (paged_api docs) = FetchRaised.
Proof.
  intros Htoken. split; [|split; [|done]].
  - intros Hone Hfuel.
    unfold fetch_all_appeal_documents. destruct token as [|c token]; [done|].
    apply (fetch_pages_paged docs fuel 0); simpl; lia.
  - intros Hfew.
    unfold fetch_all_appeal_documents. destruct token as [|c token]; [done|].
    destruct Hfew as [->|Hfew]; [done|].
    apply (fetch_pages_running docs fuel 0 []). simpl. lia.
Qed.

Lemma fetch_all_appeal_documents_complete_witness :
  u "token" <> []
  /\ fetch_all_appeal_documents (Some (u "token")) 3 (paged_api (seq 0 120))
     = Fetched (seq 0 120)
  /\ fetch_all_appeal_documents (Some (u "token")) 2 (paged_api (seq 0 100))
     = Fetched (seq 0 100)
  /\ fetch_all_appeal_documents (Some (u "token")) 1 (paged_api (seq 0 50))
     = Fetched (seq 0 50)
  /\ fetch_all_appeal_documents (Some (u "token")) 1 (paged_api (@nil nat))
     = Fetched []
  /\ fetch_all_appeal_documents (Some (u "token")) 2 (paged_api (seq 0 101))
     = FetchRunning.
Proof.
  assert (u "token" <> []) as Htoken by discriminate.
  split; [exact Htoken|].
  split; [|split; [|split; [|split]]].
  - apply (proj1 (fetch_all_appeal_documents_complete (seq 0 120) (u "token") 3
                    Htoken)); vm_compute; lia.
  - apply (proj1 (fetch_all_appeal_documents_complete (seq 0 100) (u "token") 2
                    Htoken)); vm_compute; lia.
  - apply (proj1 (fetch_all_appeal_documents_complete (seq 0 50) (u "token") 1
                    Htoken)); vm_compute; lia.
  - apply (proj1 (fetch_all_appeal_documents_complete (@nil nat) (u "token") 1
                    Htoken)); vm_compute; lia.
  - apply (proj1 (proj2 (fetch_all_appeal_documents_complete (seq 0 101)
                           (u "token") 2 Htoken))).
    right. vm_compute. lia.
Defined.

(** ** Cleaning the response of the model *)

Lemma lstrip_idem (s : str) : lstrip (lstrip s) = lstrip s.
Proof.
  induction s as [|c s IH]; [done|]. simpl.
  destruct (is_whitespace c) eqn:Hc; [done|]. simpl. by rewrite Hc.
Qed.

Lemma lstrip_head (s r : str) (c : N) :
  lstrip s = c :: r -> is_whitespace c = false.
Proof.
  induction s as [|x s IH]; [done|]. simpl.
  destruct (is_whitespace x) eqn:Hx; [done|]. by intros [= <- _].
Qed.

Lemma lstrip_cons (c : N) (s : str) :
  is_whitespace c = false -> lstrip (c :: s) = c :: s.
Proof. intros Hc. simpl. by rewrite Hc. Qed.

Lemma rstrip_idem (s : str) : rstrip (rstrip s) = rstrip s.
Proof. unfold rstrip. by rewrite reverse_involutive, lstrip_idem. Qed.

Lemma rstrip_snoc (c : N) (s : str) :
  is_whitespace c = false -> rstrip (s ++ [c]) = s ++ [c].
Proof.
  intros Hc. unfold rstrip. rewrite reverse_snoc, lstrip_cons by done.
  by rewrite reverse_cons, reverse_involutive.
Qed.

Lemma lstrip_rstrip (s : str) : lstrip (rstrip (lstrip s)) = rstrip (lstrip s).
Proof.
  destruct (lstrip s) as [|c t] eqn:Ht; [done|].
  apply lstrip_head in Ht.
  destruct (rstrip_cons c t Ht) as [r ->]. by apply lstrip_cons.
Qed.

Lemma strip_idem (s : str) : strip (strip s) = strip s.
Proof. unfold strip. by rewrite lstrip_rstrip, rstrip_idem. Qed.

Lemma startswith_app_l (a b s : str) :
  startswith (a ++ b) s = true -> startswith a s = true.
Proof.
  intros [r ->]%startswith_spec. apply startswith_spec.
  exists (b ++ r). by rewrite app_assoc.
Qed.

Lemma endswith_app (s suffix : str) : endswith (s ++ suffix) suffix = true.
Proof.
  unfold endswith. rewrite reverse_app. apply startswith_spec. eauto.
Qed.

(** X18. The text handed to [json.loads] never has white space around it.
    A response that is, white space aside, a block fenced by [```json] and
    [```] is reduced to the trimmed body of the block, provided the body
    does not itself begin with a fence; a response without a fence at its
    start or end is only trimmed. *)
Theorem clean_response_spec (response_text : str) :
  strip (clean_response response_text) = clean_response response_text
  /\ (forall body,
        strip response_text = u "```json" ++ body ++ u "```" ->
        startswith (u "```") (body ++ u "```") = false ->
        clean_response response_text = strip body)
  /\ (forall body,
        strip response_text = u "```" ++ body ++ u "```" ->
        startswith (u "json") body = false ->
        clean_response response_text = strip body)
  /\ (startswith (u "```") (strip response_text) = false ->
      endswith (strip response_text) (u "```") = false ->
      clean_response response_text = strip response_text).
Proof.
  unfold clean_response. split; [apply strip_idem|]. split; [|split].
  - intros body -> Hbody.
    assert (startswith (u "```json") (u "```json" ++ body ++ u "```") = true)
      as -> by (apply startswith_spec; eauto).
    change (drop 7 (u "```json" ++ body ++ u "```")) with (body ++ u "```").
    rewrite Hbody, endswith_app, length_app.
    change (length (u "```")) with 3%nat.
    by rewrite take_app_length' by lia.
  - intros body -> Hbody.
    assert (startswith (u "```json") (u "```" ++ body ++ u "```") = false) as ->.
    { change (startswith (u "```json") (u "```" ++ body ++ u "```"))
        with (startswith (u "json") (body ++ u "```")).
      destruct (startswith (u "json") (body ++ u "```")) eqn:H; [|done].
      exfalso.
      assert (length body < 4)%nat as Hlen.
      { destruct (decide (4 <= length body)%nat) as [Hle|]; [|lia].
        by rewrite (startswith_app_inv _ _ _ H Hle) in Hbody. }
      apply startswith_spec in H as [r Hr].
      destruct body as [|c0 [|c1 [|c2 [|c3 body]]]];
        [| | | | simpl in Hlen; lia]; vm_compute in Hr; congruence. }
    assert (startswith (u "```") (u "```" ++ body ++ u "```") = true)
      as -> by (apply startswith_spec; eauto).
    change (drop 3 (u "```" ++ body ++ u "```")) with (body ++ u "```").
    rewrite endswith_app, length_app.
    change (length (u "```")) with 3%nat.
    by rewrite take_app_length' by lia.
  - intros Hstart Hend.
    assert (startswith (u "```json") (strip response_text) = false) as ->.
    { destruct (startswith (u "```json") (strip response_text)) eqn:H; [|done].
      apply (startswith_app_l (u "```") (u "json")) in H. congruence. }
    rewrite Hstart, Hend. apply strip_idem.
Qed.

(** ** Scores of extracted pages *)

(** X19. For a page built by [extract_page_content] the table bonus is
    added exactly when the page has a table.  With a non-negative keyword
    weight and a positive bonus such a page has a positive score, so it is
    never dropped by the filter of the selector. *)
Theorem extracted_page_score (lower : str -> str) (cfg : Config)
    (page : raw_page) (n : Z) :
  let p := extract_page_content page n in
  let scored := snd (calculate_relevance_score lower cfg p) in
  relevance_score scored
  = Zsum (map (fun k => Z.of_nat (count (corpus lower p) (lower k)) * KEYWORD_SCORE cfg)
              (RELEVANCE_KEYWORDS cfg))
    + (match tables p with [] => 0 | _ :: _ => TABLE_BONUS_SCORE cfg end)
  /\ (0 <= KEYWORD_SCORE cfg -> 0 < TABLE_BONUS_SCORE cfg -> tables p <> [] ->
      0 < relevance_score scored
      /\ forall pages, scored ∈ pages -> scored ∈ scored_pages pages).
Proof.
  intros p scored. unfold scored.
  rewrite calculate_relevance_score_snd. cbn [relevance_score set_relevance_score].
  assert (has_tables p = match tables p with [] => false | _ :: _ => true end)
    as Hflag.
  { pose proof (extract_page_content_shape page n) as Hshape. fold p in Hshape.
    destruct (tables p), (has_tables p); try done.
    - by destruct (proj1 Hshape).
    - by destruct (proj2 Hshape). }
  assert (described_score lower cfg p
          = Zsum (map (fun k => Z.of_nat (count (corpus lower p) (lower k))
                                * KEYWORD_SCORE cfg) (RELEVANCE_KEYWORDS cfg))
            + match tables p with [] => 0 | _ :: _ => TABLE_BONUS_SCORE cfg end)
    as Hscore.
  { unfold described_score. rewrite Hflag. by destruct (tables p). }
  split; [exact Hscore|]. intros Hk Hb Htables.
  assert (0 < described_score lower cfg p) as Hpos.
  { rewrite Hscore.
    assert (0 <= Zsum (map (fun k => Z.of_nat (count (corpus lower p) (lower k))
                                     * KEYWORD_SCORE cfg) (RELEVANCE_KEYWORDS cfg))).
    { apply Zsum_nonneg, Forall_map, Forall_forall. intros k _. simpl. nia. }
    destruct (tables p); [done | lia]. }
  split; [done|]. intros pages Hin.
  apply elem_of_scored_pages. by split.
Qed.

(** ** Column letters *)

Lemma col_letter_value (idx : Z) :
  0 <= idx < 702 ->
  col_letter idx
  = Some (if idx <? 26 then [Z.to_N (65 + idx)]
          else [Z.to_N (64 + idx / 26); Z.to_N (65 + idx mod 26)]).
Proof.
  intros Hidx. unfold col_letter, chr.
  destruct (Z.ltb_spec idx 26) as [Hlt|Hge].
  - destruct (Z.leb_spec 0 (65 + idx)); [|lia].
    destruct (Z.ltb_spec (65 + idx) 1114112); [done | lia].
  - assert (0 < idx / 26 < 27) by (split; [apply Z.div_str_pos|
      apply Z.div_lt_upper_bound]; lia).
    pose proof (Z.mod_pos_bound idx 26 ltac:(lia)).
    destruct (Z.leb_spec 0 (64 + idx / 26)); [|lia].
    destruct (Z.ltb_spec (64 + idx / 26) 1114112); [|lia].
    destruct (Z.leb_spec 0 (65 + idx mod 26)); [|lia].
    destruct (Z.ltb_spec (65 + idx mod 26) 1114112); [done | lia].
Qed.

(** X20. For the first 702 column indices [col_letter] gives the column
    names of a spreadsheet: one capital letter for an index below 26, two
    capital letters from 26 on, and different indices get different
    names. *)
Theorem col_letter_injective (i j : Z) :
  0 <= i < 702 -> 0 <= j < 702 ->
  (exists s, col_letter i = Some s
             /\ Forall (fun c => (65 <= c <= 90)%N) s
             /\ length s = if i <? 26 then 1%nat else 2%nat)
  /\ (col_letter i = col_letter j -> i = j).
Proof.
  intros Hi Hj. rewrite (col_letter_value i Hi), (col_letter_value j Hj).
  assert (forall k, 26 <= k < 702 -> 0 < k / 26 < 27 /\ 0 <= k mod 26 < 26) as Hdiv.
  { intros k Hk. split.
    - split; [apply Z.div_str_pos | apply Z.div_lt_upper_bound]; lia.
    - apply Z.mod_pos_bound. lia. }
  split.
  - eexists. split; [done|].
    destruct (Z.ltb_spec i 26) as [Hlt|Hge].
    + split; [|done]. repeat constructor; lia.
    + destruct (Hdiv i ltac:(lia)). split; [|done]. repeat constructor; lia.
  - destruct (Z.ltb_spec i 26), (Z.ltb_spec j 26); intros [= H1 H2] || intros [= H1];
      try lia.
    destruct (Hdiv i ltac:(lia)), (Hdiv j ltac:(lia)).
    rewrite (Z.div_mod i 26), (Z.div_mod j 26) by lia. lia.
Qed.

Lemma col_letter_injective_witness :
  (0 <= 27 < 702 /\ 0 <= 27 < 702)
  /\ col_letter 0 = Some (u "A") /\ col_letter 25 = Some (u "Z")
  /\ col_letter 26 = Some (u "AA") /\ col_letter 27 = Some (u "AB")
  /\ col_letter 701 = Some (u "ZZ")
  /\ exists s, col_letter 27 = Some s /\ length s = 2%nat.
Proof.
  assert (0 <= 27 < 702) as H by lia.
  split; [by split|].
  do 5 (split; [vm_compute; reflexivity|]).
  destruct (proj1 (col_letter_injective 27 27 H H)) as (s & Hs & _ & Hlen).
  exists s. split; [exact Hs | exact Hlen].
Defined.

(** ** The models on sample inputs *)

Example extract_document_id_examples :
  let id := extract_document_id (fun _ => None) in
  id (u "16389_EAP2025HN05-Summary.pdf") = Some 16389
  /\ id (u "007_x.pdf") = Some 7
  /\ id (u "12__") = Some 12
  /\ id (u "123.pdf") = None
  /\ id (u "abc_1.pdf") = None
  /\ id (u "_1.pdf") = None
  /\ id (u "-5_x.pdf") = None
  /\ id [] = None.
Proof. repeat split; vm_compute; reflexivity. Qed.

Example clean_response_examples :
  clean_response (u "  ```json" ++ nl ++ u "[1, 2]" ++ nl ++ u "```" ++ nl)
  = u "[1, 2]"
  /\ clean_response (u "```" ++ nl ++ u "[1, 2]" ++ nl ++ u "```") = u "[1, 2]"
  /\ clean_response (nl ++ u "[1, 2] ") = u "[1, 2]"
  /\ clean_response (u "```json```") = []
  /\ clean_response [] = [].
Proof. repeat split; vm_compute; reflexivity. Qed.

Example prepare_pdf_payload_examples :
  let prepare := prepare_pdf_payload (fun _ => None) lower_latin1 config_py in
  let table := Some [[Some (u "A"); Some (u "B")]; [Some (u "1"); Some (u "2")]] in
  let doc := Some [Some (u "Contents", Some []);
                   Some (u "Flood threshold 40%", Some [table]);
                   None;
                   Some (u "never read", None)] in
  let metadata : option (gmap Z str) := Some {[ 7 := u "Plan" ]} in
  map page_num (process_pdf doc) = [1; 2]
  /\ fst (prepare (u "7_plan.pdf") doc metadata)
     = Some (page_header 1 ++ text_marker ++ u "Contents" ++ nl
             ++ page_header 2 ++ tables_marker ++ table_AB ++ nl
             ++ text_marker ++ u "Flood threshold 40%" ++ nl)
  /\ snd (prepare (u "7_plan.pdf") doc metadata) !! "document_name"
     = Some (VStr (u "Plan"))
  /\ snd (prepare (u "7_plan.pdf") doc metadata) !! "pages_selected"
     = Some (VInt 2)
  /\ fst (prepare (u "plan.pdf") None metadata) = None
  /\ snd (prepare (u "plan.pdf") None metadata) !! "status"
     = Some (VStr (u "error"))
  /\ snd (prepare (u "plan.pdf") (Some [Some (u "Contents", None)]) metadata)
       !! "status" = Some (VStr (u "no_matches")).
Proof. repeat split; vm_compute; reflexivity. Qed.
